(** * MCP23S17 port expander driver: configuration, register images,
      register transport and interrupt dispatch

    Shallow embedding of [sw/include/MCP23XXX.h] and [sw/include/MCP23S17.h].

    - Integers of the C++ code are [Z] with the wrap-around of their declared
      width written out ([uint8_t]: [mod 256], [uint16_t]: [mod 65536]).
    - Template parameters become arguments: the pack [PinConfig ...] is a
      first entry and a list of further entries (the pack cannot be empty,
      [PinIdxToPinType] has no specialization for it); the collaborators
      [SPIMaster] and [SSPin] are type classes over the state of the bus.
    - Static methods that touch the bus or the static callback slots are
      state transformers [M A := Driver -> A * Driver]. *)

From stdpp Require Import base numbers list strings gmap.

Local Open Scope Z_scope.

(* ===================================================================== *)
(** ** MCP23XXX.h: pin types and their register bits *)
(* ===================================================================== *)

Inductive MCP23xxxPinType : Type :=
| UNUSED
| OUTPUT
| INPUT
| INPUT_PU
| SWITCH
| ROTENC_PHASE_A
| ROTENC_PHASE_B.

#[global] Instance MCP23xxxPinType_eq_dec : EqDecision MCP23xxxPinType.
Proof. solve_decision. Defined.

(** The six [static constexpr bool] members of each specialization of
    [MCP23xxx::Pin<PinOnDevice, t_PinType>]; the primary template serves
    [UNUSED]. *)
Definition s_IODIRBit (t : MCP23xxxPinType) : bool :=
  match t with
  | UNUSED => false
  | OUTPUT => false
  | INPUT => true
  | INPUT_PU => true
  | SWITCH => true
  | ROTENC_PHASE_A => true
  | ROTENC_PHASE_B => true
  end.

Definition s_IPOLBit (t : MCP23xxxPinType) : bool :=
  match t with
  | UNUSED => false
  | OUTPUT => false
  | INPUT => false
  | INPUT_PU => false
  | SWITCH => true
  | ROTENC_PHASE_A => true
  | ROTENC_PHASE_B => true
  end.

Definition s_GPINTENBit (t : MCP23xxxPinType) : bool :=
  match t with
  | UNUSED => false
  | OUTPUT => false
  | INPUT => false
  | INPUT_PU => false
  | SWITCH => true
  | ROTENC_PHASE_A => true
  | ROTENC_PHASE_B => false
  end.

Definition s_DEFVALBit (t : MCP23xxxPinType) : bool :=
  match t with
  | UNUSED => false
  | OUTPUT => false
  | INPUT => false
  | INPUT_PU => false
  | SWITCH => false
  | ROTENC_PHASE_A => false
  | ROTENC_PHASE_B => false
  end.

Definition s_INTCONBit (t : MCP23xxxPinType) : bool :=
  match t with
  | UNUSED => false
  | OUTPUT => false
  | INPUT => false
  | INPUT_PU => false
  | SWITCH => false
  | ROTENC_PHASE_A => false
  | ROTENC_PHASE_B => false
  end.

Definition s_GPPUBit (t : MCP23xxxPinType) : bool :=
  match t with
  | UNUSED => false
  | OUTPUT => false
  | INPUT => false
  | INPUT_PU => true
  | SWITCH => true
  | ROTENC_PHASE_A => true
  | ROTENC_PHASE_B => true
  end.

(** The specializations that declare [s_callback] and [registerCallback]. *)
Definition has_callback (t : MCP23xxxPinType) : bool :=
  match t with
  | SWITCH | ROTENC_PHASE_A => true
  | _ => false
  end.

(** Names of the public members of each specialization of [MCP23xxx::Pin],
    in the order of declaration.  Every specialization but the primary
    template derives from [PinOnDevice] with the default (private) access of
    [class], and the accessors of [PinOnDevice] are [protected]: none of
    them is a public member of the pin class. *)
Definition Pin_public_members (t : MCP23xxxPinType) : list string :=
  let bits := ["s_IODIRBit"; "s_IPOLBit"; "s_GPINTENBit";
               "s_DEFVALBit"; "s_INTCONBit"; "s_GPPUBit"]%string in
  match t with
  | UNUSED | OUTPUT | INPUT | INPUT_PU => bits ++ ["notify"%string]
  | SWITCH | ROTENC_PHASE_A =>
      ["registerCallback"%string] ++ bits ++ ["s_callback"; "notify"]%string
  | ROTENC_PHASE_B => ["read"%string] ++ bits ++ ["notify"%string]
  end.

(* ===================================================================== *)
(** ** MCP23S17.h: pin indices and the configuration pack *)
(* ===================================================================== *)

Inductive MCP23S17PinIdx : Type :=
| B0 | B1 | B2 | B3 | B4 | B5 | B6 | B7
| A0 | A1 | A2 | A3 | A4 | A5 | A6 | A7.

#[global] Instance MCP23S17PinIdx_eq_dec : EqDecision MCP23S17PinIdx.
Proof. solve_decision. Defined.

(** The enumerator values, [static_cast<uint8_t>(t_pinIdx)]. *)
Definition pinIdx_value (i : MCP23S17PinIdx) : Z :=
  match i with
  | B0 => 0 | B1 => 1 | B2 => 2 | B3 => 3
  | B4 => 4 | B5 => 5 | B6 => 6 | B7 => 7
  | A0 => 8 | A1 => 9 | A2 => 10 | A3 => 11
  | A4 => 12 | A5 => 13 | A6 => 14 | A7 => 15
  end.

(** The pins in the order in which [init] and [onInterrupt] name them. *)
Definition all_pins : list MCP23S17PinIdx :=
  [B0; B1; B2; B3; B4; B5; B6; B7; A0; A1; A2; A3; A4; A5; A6; A7].

Record MCP23S17PinConfig : Type := mkPinConfig {
  s_pinIdx : MCP23S17PinIdx;
  s_pinType : MCP23xxxPinType
}.

(** [PinIdxToPinType<t_pinIdx, CurrentPinConfig, NextPinConfig ...>::value]:
    the first entry of the pack with the index wins; the one-entry
    specialization ends the search with [UNUSED]. *)
Fixpoint PinIdxToPinType (t_pinIdx : MCP23S17PinIdx)
    (CurrentPinConfig : MCP23S17PinConfig)
    (NextPinConfig : list MCP23S17PinConfig) {struct NextPinConfig}
  : MCP23xxxPinType :=
  match NextPinConfig with
  | [] =>
      if decide (t_pinIdx = s_pinIdx CurrentPinConfig)
      then s_pinType CurrentPinConfig
      else UNUSED
  | n :: rest =>
      if decide (t_pinIdx = s_pinIdx CurrentPinConfig)
      then s_pinType CurrentPinConfig
      else PinIdxToPinType t_pinIdx n rest
  end.

(** avr-libc's [_BV(bit)], [(1 << (bit))]. *)
Definition _BV (bit : Z) : Z := Z.shiftl 1 bit.

(** Addresses for [BANK == 0], opcodes and the bits of [IOCON]. *)
Definition IODIRA : Z := 0x00.
Definition IODIRB : Z := 0x01.
Definition IPOLA : Z := 0x02.
Definition IPOLB : Z := 0x03.
Definition GPINTENA : Z := 0x04.
Definition GPINTENB : Z := 0x05.
Definition DEFVALA : Z := 0x06.
Definition DEFVALB : Z := 0x07.
Definition INTCONA : Z := 0x08.
Definition INTCONB : Z := 0x09.
Definition IOCON : Z := 0x0A.
Definition GPPUA : Z := 0x0C.
Definition GPPUB : Z := 0x0D.
Definition INTFA : Z := 0x0E.
Definition INTFB : Z := 0x0F.
Definition INTCAPA : Z := 0x10.
Definition INTCAPB : Z := 0x11.
Definition GPIOA : Z := 0x12.
Definition GPIOB : Z := 0x13.
Definition OLATA : Z := 0x14.
Definition OLATB : Z := 0x15.

Definition OPCODE_WRITE : Z := 0x40.
Definition OPCODE_READ : Z := 0x41.

Definition INTPOL : Z := 1.
Definition ODR : Z := 2.
Definition HAEN : Z := 3.
Definition DISSLW : Z := 4.
Definition SEQOP : Z := 5.
Definition MIRROR : Z := 6.
Definition BANK : Z := 7.

(** Conversions to the unsigned types of the code. *)
Definition uint8 (x : Z) : Z := x mod 256.
Definition uint16 (x : Z) : Z := x mod 65536.

(** [static_cast<uint8_t>(t_pinIdx) & 0b1000] as the [bool] default of the
    second template parameter of [PinRegisterAccess]. *)
Definition t_portA (t_pinIdx : MCP23S17PinIdx) : bool :=
  bool_decide (Z.land (uint8 (pinIdx_value t_pinIdx)) 8 ≠ 0).

(** [PinRegisterAccess<t_pinIdx, _>::getBitmask], the same in both
    specializations: [_BV(static_cast<uint8_t>(t_pinIdx) & 0b111)]. *)
Definition getBitmask (t_pinIdx : MCP23S17PinIdx) : Z :=
  uint8 (_BV (Z.land (uint8 (pinIdx_value t_pinIdx)) 7)).

(* ===================================================================== *)
(** ** The collaborators and the state of the driver *)
(* ===================================================================== *)

(** [concept DrvSPIMaster]: [put(uint8_t)] and [get()], acting on the state
    [W] of whatever is behind the bus. *)
Class DrvSPIMaster (W : Type) : Type := {
  SPIMaster_put : Z -> W -> W;
  SPIMaster_get : W -> Z * W
}.

(** [concept DrvGPIOPin]: [high()] and [low()] of the chip-select pin. *)
Class DrvGPIOPin (W : Type) : Type := {
  SSPin_high : W -> W;
  SSPin_low : W -> W
}.

#[global] Instance MCP23S17PinIdx_countable : Countable MCP23S17PinIdx.
Proof.
  refine (inj_countable' pinIdx_value
            (fun z => default B0 (list_find (fun i => pinIdx_value i = z) all_pins
                                  ≫= (fun p => Some p.2))) _).
  intros []; reflexivity.
Defined.

(** Calls observed while the driver runs (a ghost trace): entry into
    [Pin<i>::notify()], and the invocation [s_callback()] of the slot of
    pin [i] with what the slot held ([None]: the default-constructed
    [function<void()>]). *)
Inductive Call (Callback : Type) : Type :=
| CallNotify (i : MCP23S17PinIdx)
| CallCallback (i : MCP23S17PinIdx) (f : option Callback).
Arguments CallNotify {Callback} i.
Arguments CallCallback {Callback} i f.

(** What the static methods act on: the bus, the static members
    [s_callback] (one per instantiation of [Pin], that is one per pin index,
    since [PinOnDevice] is [PinRegisterAccess<t_pinIdx>]), and the trace. *)
Record Driver (W Callback : Type) : Type := mkDriver {
  bus : W;
  s_callback : gmap MCP23S17PinIdx Callback;
  calls : list (Call Callback)
}.
Arguments mkDriver {W Callback} bus s_callback calls.
Arguments bus {W Callback} d.
Arguments s_callback {W Callback} d.
Arguments calls {W Callback} d.

Definition M (W Callback A : Type) : Type :=
  Driver W Callback -> A * Driver W Callback.

Definition ret {W Callback A} (a : A) : M W Callback A := fun d => (a, d).

Definition bind {W Callback A B} (m : M W Callback A) (f : A -> M W Callback B)
  : M W Callback B :=
  fun d => let '(a, d') := m d in f a d'.

Notation "x <- m ;; k" := (bind m (fun x => k))
  (at level 100, m at next level, right associativity, only parsing).
Notation "m ;; k" := (bind m (fun _ => k))
  (at level 100, right associativity, only parsing).

Definition when {W Callback} (c : bool) (m : M W Callback unit) : M W Callback unit :=
  if c then m else ret tt.

Definition on_bus {W Callback} (f : W -> W) : M W Callback unit :=
  fun d => (tt, mkDriver (f (bus d)) (s_callback d) (calls d)).

Definition from_bus {W Callback A} (f : W -> A * W) : M W Callback A :=
  fun d => let '(a, w) := f (bus d) in (a, mkDriver w (s_callback d) (calls d)).

Definition record {W Callback} (c : Call Callback) : M W Callback unit :=
  fun d => (tt, mkDriver (bus d) (s_callback d) (calls d ++ [c])).

(* ===================================================================== *)
(** ** MCP23S17<SPIMaster, SSPin, PinConfig ...> *)
(* ===================================================================== *)

Section MCP23S17.

Context {W : Type} `{!DrvSPIMaster W} `{!DrvGPIOPin W} {Callback : Type}.
Variable CurrentPinConfig : MCP23S17PinConfig.
Variable NextPinConfig : list MCP23S17PinConfig.

Local Abbreviation M := (M W Callback).

(** *** Register transport *)

Definition writeRegister (t_registerAddress value : Z) : M unit :=
  let t_registerAddress := uint8 t_registerAddress in
  let value := uint8 value in
  on_bus SSPin_low ;;
  on_bus (SPIMaster_put (uint8 OPCODE_WRITE)) ;;
  on_bus (SPIMaster_put t_registerAddress) ;;
  on_bus (SPIMaster_put value) ;;
  on_bus SSPin_high.

Definition readRegister (t_registerAddress : Z) : M Z :=
  let t_registerAddress := uint8 t_registerAddress in
  on_bus SSPin_low ;;
  on_bus (SPIMaster_put (uint8 OPCODE_READ)) ;;
  on_bus (SPIMaster_put t_registerAddress) ;;
  value <- from_bus SPIMaster_get ;;
  let value := uint8 value in
  on_bus SSPin_high ;;
  ret value.

Definition writeRegisterPair (t_registerAddress value : Z) : M unit :=
  let t_registerAddress := uint8 t_registerAddress in
  let value := uint16 value in
  on_bus SSPin_low ;;
  on_bus (SPIMaster_put (uint8 OPCODE_WRITE)) ;;
  on_bus (SPIMaster_put t_registerAddress) ;;
  on_bus (SPIMaster_put (uint8 (Z.shiftr value 8))) ;;
  on_bus (SPIMaster_put (uint8 value)) ;;
  on_bus SSPin_high.

Definition readRegisterPair (t_registerAddress : Z) : M Z :=
  let t_registerAddress := uint8 t_registerAddress in
  on_bus SSPin_low ;;
  on_bus (SPIMaster_put (uint8 OPCODE_READ)) ;;
  on_bus (SPIMaster_put t_registerAddress) ;;
  valueA <- from_bus SPIMaster_get ;;
  let valueA := uint16 valueA in
  valueB <- from_bus SPIMaster_get ;;
  let valueB := uint16 valueB in
  on_bus SSPin_high ;;
  ret (uint16 (uint16 (Z.shiftl valueA 8) + valueB)).

(** *** PinRegisterAccess<t_pinIdx, t_portA> *)

(** [readINTCAP] of the specialization chosen by [t_portA]. *)
Definition readINTCAP (t_pinIdx : MCP23S17PinIdx) : M bool :=
  v <- readRegister (if t_portA t_pinIdx then INTCAPA else INTCAPB) ;;
  ret (bool_decide (Z.land v (getBitmask t_pinIdx) ≠ 0)).

Definition readGPIO (t_pinIdx : MCP23S17PinIdx) : M bool :=
  v <- readRegister (if t_portA t_pinIdx then GPIOA else GPIOB) ;;
  ret (bool_decide (Z.land v (getBitmask t_pinIdx) ≠ 0)).

(** The latch accessor: [writeOLATA] in the port A specialization,
    [writeOLAT] in the port B one, with the same body up to the register. *)
Definition writeOLAT (t_pinIdx : MCP23S17PinIdx) (bValue : bool) : M unit :=
  let OLAT := if t_portA t_pinIdx then OLATA else OLATB in
  if bValue
  then v <- readRegister OLAT ;;
       writeRegister OLAT (Z.lor v (getBitmask t_pinIdx))
  else v <- readRegister OLAT ;;
       writeRegister OLAT (Z.land v (Z.lnot (getBitmask t_pinIdx))).

(** *** Pin<t_pinIdx> *)

(** The pin type that selects the specialization behind [Pin<t_pinIdx>]. *)
Definition Pin (t_pinIdx : MCP23S17PinIdx) : MCP23xxxPinType :=
  PinIdxToPinType t_pinIdx CurrentPinConfig NextPinConfig.

(** [Pin<t_pinIdx>::registerCallback]; [None] where the specialization has
    no such member. *)
Definition registerCallback (t_pinIdx : MCP23S17PinIdx)
  : option (Callback -> M unit) :=
  if has_callback (Pin t_pinIdx)
  then Some (fun callback d =>
               (tt, mkDriver (bus d) (<[t_pinIdx := callback]> (s_callback d))
                             (calls d)))
  else None.

(** The call [s_callback()] inside [notify]. *)
Definition invoke_s_callback (t_pinIdx : MCP23S17PinIdx) : M unit :=
  fun d => record (CallCallback t_pinIdx (s_callback d !! t_pinIdx)) d.

(** [Pin<t_pinIdx>::notify]. *)
Definition notify (t_pinIdx : MCP23S17PinIdx) : M unit :=
  record (CallNotify t_pinIdx) ;;
  match Pin t_pinIdx with
  | SWITCH | ROTENC_PHASE_A =>
      c <- readINTCAP t_pinIdx ;;
      if c then invoke_s_callback t_pinIdx else ret tt
  | UNUSED | OUTPUT | INPUT | INPUT_PU | ROTENC_PHASE_B => ret tt
  end.

(** [Pin<t_pinIdx>::read], a member of the phase B specialization only. *)
Definition Pin_read (t_pinIdx : MCP23S17PinIdx) : option (M bool) :=
  match Pin t_pinIdx with
  | ROTENC_PHASE_B => Some (readINTCAP t_pinIdx)
  | _ => None
  end.

(** *** The device *)

Definition checkConfig : M unit := ret tt.

Definition reArmInterrupt : M unit :=
  _ <- readRegisterPair INTCAPA ;; ret tt.

(** One of the six sums handed to [writeRegisterPair] by [init], for the
    bit selected by [bit]. *)
Definition registerImage (bit : MCP23xxxPinType -> bool) : Z :=
  (if bit (Pin B0) then _BV (pinIdx_value B0) else 0) +
  (if bit (Pin B1) then _BV (pinIdx_value B1) else 0) +
  (if bit (Pin B2) then _BV (pinIdx_value B2) else 0) +
  (if bit (Pin B3) then _BV (pinIdx_value B3) else 0) +
  (if bit (Pin B4) then _BV (pinIdx_value B4) else 0) +
  (if bit (Pin B5) then _BV (pinIdx_value B5) else 0) +
  (if bit (Pin B6) then _BV (pinIdx_value B6) else 0) +
  (if bit (Pin B7) then _BV (pinIdx_value B7) else 0) +
  (if bit (Pin A0) then _BV (pinIdx_value A0) else 0) +
  (if bit (Pin A1) then _BV (pinIdx_value A1) else 0) +
  (if bit (Pin A2) then _BV (pinIdx_value A2) else 0) +
  (if bit (Pin A3) then _BV (pinIdx_value A3) else 0) +
  (if bit (Pin A4) then _BV (pinIdx_value A4) else 0) +
  (if bit (Pin A5) then _BV (pinIdx_value A5) else 0) +
  (if bit (Pin A6) then _BV (pinIdx_value A6) else 0) +
  (if bit (Pin A7) then _BV (pinIdx_value A7) else 0).

Definition init (intActiveHigh : bool) : M unit :=
  checkConfig ;;
  let valueIOCON :=
    uint8 (Z.lor (Z.lor (_BV SEQOP) (_BV MIRROR))
                 (if intActiveHigh then _BV INTPOL else 0)) in
  writeRegister IOCON valueIOCON ;;
  writeRegisterPair IODIRA (registerImage s_IODIRBit) ;;
  writeRegisterPair IPOLA (registerImage s_IPOLBit) ;;
  writeRegisterPair GPINTENA (registerImage s_GPINTENBit) ;;
  writeRegisterPair DEFVALA (registerImage s_DEFVALBit) ;;
  writeRegisterPair INTCONA (registerImage s_INTCONBit) ;;
  writeRegisterPair GPPUA (registerImage s_GPPUBit) ;;
  reArmInterrupt.

(** One [if (INTF & _BV(...)) { Pin<...>::notify(); }] of [onInterrupt]. *)
Definition dispatch (INTF : Z) (t_pinIdx : MCP23S17PinIdx) : M unit :=
  when (bool_decide (Z.land INTF (_BV (uint16 (pinIdx_value t_pinIdx))) ≠ 0))
       (notify t_pinIdx).

Definition onInterrupt : M unit :=
  INTF <- readRegisterPair INTFA ;;
  dispatch INTF B0 ;;
  dispatch INTF B1 ;;
  dispatch INTF B2 ;;
  dispatch INTF B3 ;;
  dispatch INTF B4 ;;
  dispatch INTF B5 ;;
  dispatch INTF B6 ;;
  dispatch INTF B7 ;;
  dispatch INTF A0 ;;
  dispatch INTF A1 ;;
  dispatch INTF A2 ;;
  dispatch INTF A3 ;;
  dispatch INTF A4 ;;
  dispatch INTF A5 ;;
  dispatch INTF A6 ;;
  dispatch INTF A7.

(** [read], [readA] and [readB]: the live levels of both ports, of port A
    and of port B. *)
Definition read : M Z := readRegisterPair GPIOA.

Definition readA : M Z := readRegister GPIOA.

Definition readB : M Z := readRegister GPIOB.

End MCP23S17.

(* ===================================================================== *)
(** ** A simulated register file behind the bus *)
(* ===================================================================== *)

(** The device is hardware; to run the driver it is replaced by a register
    file that speaks the framing of the MCP23S17: chip select low, opcode,
    address, data bytes, chip select high.  It keeps the registers as plain
    bytes (no register has a side effect) and records every completed
    frame. *)

Inductive Stage : Type :=
| Deselected
| AwaitOpcode
| AwaitAddress (op : Z)
| Transfer (op addr ptr : Z) (data : list Z)
| Foreign.

Record Frame : Type := mkFrame {
  f_opcode : Z;
  f_address : Z;
  f_data : list Z
}.

#[global] Instance Frame_eq_dec : EqDecision Frame.
Proof. solve_decision. Defined.

Record Chip : Type := mkChip {
  regs : gmap Z Z;
  stage : Stage;
  frames : list Frame
}.

(** The byte held by the register at address [a]. *)
Definition reg (rs : gmap Z Z) (a : Z) : Z := uint8 (default 0 (rs !! a)).

(** The address pointer after a data byte.  With [IOCON.SEQOP] set (byte
    mode, as [init] configures it) and [BANK = 0] the pointer toggles
    between the two registers of a pair, otherwise it increments. *)
Definition advance (rs : gmap Z Z) (ptr : Z) : Z :=
  if Z.testbit (reg rs IOCON) SEQOP then Z.lxor ptr 1 else uint8 (ptr + 1).

Definition chip_low (c : Chip) : Chip :=
  mkChip (regs c) AwaitOpcode (frames c).

Definition chip_high (c : Chip) : Chip :=
  match stage c with
  | Transfer op addr _ data =>
      mkChip (regs c) Deselected (frames c ++ [mkFrame op addr data])
  | _ => mkChip (regs c) Deselected (frames c)
  end.

Definition chip_put (b : Z) (c : Chip) : Chip :=
  match stage c with
  | AwaitOpcode =>
      if decide (b = OPCODE_WRITE ∨ b = OPCODE_READ)
      then mkChip (regs c) (AwaitAddress b) (frames c)
      else mkChip (regs c) Foreign (frames c)
  | AwaitAddress op => mkChip (regs c) (Transfer op b b []) (frames c)
  | Transfer op addr ptr data =>
      if decide (op = OPCODE_WRITE)
      then let rs := <[ptr := uint8 b]> (regs c) in
           mkChip rs (Transfer op addr (advance rs ptr) (data ++ [uint8 b]))
                  (frames c)
      else c
  | Deselected | Foreign => c
  end.

Definition chip_get (c : Chip) : Z * Chip :=
  match stage c with
  | Transfer op addr ptr data =>
      if decide (op = OPCODE_READ)
      then let v := reg (regs c) ptr in
           (v, mkChip (regs c)
                      (Transfer op addr (advance (regs c) ptr) (data ++ [v]))
                      (frames c))
      else (0, c)
  | _ => (0, c)
  end.

#[global] Instance Chip_SPIMaster : DrvSPIMaster Chip :=
  {| SPIMaster_put := chip_put; SPIMaster_get := chip_get |}.

#[global] Instance Chip_SSPin : DrvGPIOPin Chip :=
  {| SSPin_high := chip_high; SSPin_low := chip_low |}.

(** A driver on a deselected chip with the given registers, no callback
    registered and nothing observed yet. *)
Definition power_on (rs : gmap Z Z) : Driver Chip string :=
  mkDriver (mkChip rs Deselected []) ∅ [].

(** Reads of a capture register among recorded frames. *)
Definition is_capture_read (f : Frame) : bool :=
  bool_decide (f_opcode f = OPCODE_READ) &&
  (bool_decide (f_address f = INTCAPA) || bool_decide (f_address f = INTCAPB)).

Definition capture_reads (fs : list Frame) : nat :=
  length (List.filter is_capture_read fs).

(** The entries [CallNotify] of a trace, in order. *)
Definition notified {Callback} (cs : list (Call Callback)) : list MCP23S17PinIdx :=
  omap (fun c => match c with CallNotify i => Some i | CallCallback _ _ => None end) cs.

(** Number of binary ones of a non-negative integer. *)
Fixpoint Pos_popcount (p : positive) : nat :=
  match p with
  | xH => 1
  | xO q => Pos_popcount q
  | xI q => S (Pos_popcount q)
  end.

Definition popcount (z : Z) : nat :=
  match z with
  | Zpos p => Pos_popcount p
  | _ => 0%nat
  end.

(** The capture register read by [readINTCAP] of pin [i]. *)
Definition INTCAP_of (i : MCP23S17PinIdx) : Z :=
  if t_portA i then INTCAPA else INTCAPB.

(** The latch register behind the latch accessor of pin [i]. *)
Definition OLAT_of (i : MCP23S17PinIdx) : Z :=
  if t_portA i then OLATA else OLATB.

(** The pins whose flag is set in an interrupt-flag word, in the order of
    [all_pins]. *)
Definition flagged (INTF : Z) : list MCP23S17PinIdx :=
  List.filter (fun i => Z.testbit INTF (pinIdx_value i)) all_pins.

(** The sequence of [dispatch]es of [onInterrupt] over a list of pins. *)
Fixpoint dispatch_list {W Callback} `{!DrvSPIMaster W} `{!DrvGPIOPin W}
    (cur : MCP23S17PinConfig) (next : list MCP23S17PinConfig)
    (INTF : Z) (l : list MCP23S17PinIdx) : M W Callback unit :=
  match l with
  | [] => ret tt
  | i :: l' => dispatch cur next INTF i ;; dispatch_list cur next INTF l'
  end.

(** What [notify] of pin [i] leaves on the simulated register file: the
    frames it adds and the calls it makes. *)
Definition notify_frames (cur : MCP23S17PinConfig) (next : list MCP23S17PinConfig)
    (rs : gmap Z Z) (i : MCP23S17PinIdx) : list Frame :=
  if has_callback (Pin cur next i)
  then [mkFrame OPCODE_READ (INTCAP_of i) [reg rs (INTCAP_of i)]]
  else [].

Definition notify_calls {Callback} (cur : MCP23S17PinConfig)
    (next : list MCP23S17PinConfig) (rs : gmap Z Z)
    (cbs : gmap MCP23S17PinIdx Callback) (i : MCP23S17PinIdx)
  : list (Call Callback) :=
  CallNotify i ::
  (if has_callback (Pin cur next i) &&
      Z.testbit (reg rs (INTCAP_of i)) (pinIdx_value i mod 8)
   then [CallCallback i (cbs !! i)]
   else []).

(** The integer with the given binary digits, least significant first. *)
Fixpoint bits_to_Z (l : list bool) : Z :=
  match l with
  | [] => 0
  | b :: l' => Z.b2z b + 2 * bits_to_Z l'
  end.

(** The register file after a register-pair write of a 16-bit value: the
    high byte at the pair address, the low byte at the next one. *)
Definition write_pair (a v : Z) (rs : gmap Z Z) : gmap Z Z :=
  <[a + 1 := Z.land v 255]> (<[a := Z.shiftr v 8]> rs).

(** The bit of pin [i] in the register of its port, for a pair of registers
    at [regA] (port A) and [regB] (port B). *)
Definition pin_bit (rs : gmap Z Z) (regA regB : Z) (i : MCP23S17PinIdx) : bool :=
  Z.testbit (reg rs (if t_portA i then regA else regB)) (pinIdx_value i mod 8).

(** The entries [CallCallback] of a trace, in order. *)
Definition invoked {Callback} (cs : list (Call Callback))
  : list (MCP23S17PinIdx * option Callback) :=
  omap (fun c => match c with
                 | CallNotify _ => None
                 | CallCallback i f => Some (i, f)
                 end) cs.

(* ===================================================================== *)
(** ** A bus that records what is sent *)
(* ===================================================================== *)

(** What the collaborators see, in order: the chip-select edges, the bytes
    put and the bytes got.  The slave answers with the bytes of [miso], and
    with 0 once they are used up. *)
Inductive Wire : Type :=
| WireLow
| WireHigh
| WirePut (b : Z)
| WireGet (b : Z).

Record Line : Type := mkLine {
  wire : list Wire;
  miso : list Z
}.

Definition line_low (l : Line) : Line := mkLine (wire l ++ [WireLow]) (miso l).

Definition line_high (l : Line) : Line := mkLine (wire l ++ [WireHigh]) (miso l).

Definition line_put (b : Z) (l : Line) : Line :=
  mkLine (wire l ++ [WirePut b]) (miso l).

Definition line_get (l : Line) : Z * Line :=
  match miso l with
  | [] => (0, mkLine (wire l ++ [WireGet 0]) [])
  | b :: rest => (b, mkLine (wire l ++ [WireGet b]) rest)
  end.

#[global] Instance Line_SPIMaster : DrvSPIMaster Line :=
  {| SPIMaster_put := line_put; SPIMaster_get := line_get |}.

#[global] Instance Line_SSPin : DrvGPIOPin Line :=
  {| SSPin_high := line_high; SSPin_low := line_low |}.

(** A reader of the wire that accepts the framing of the MCP23S17: chip
    select low, an opcode, an address, data bytes in the direction of the
    opcode, chip select high. *)
Inductive Scan : Type :=
| ScanIdle
| ScanOpcode
| ScanAddress (op : Z)
| ScanData (op : Z).

Definition scan_step (s : Scan) (e : Wire) : option Scan :=
  match s, e with
  | ScanIdle, WireLow => Some ScanOpcode
  | ScanOpcode, WirePut op =>
      if decide (op = OPCODE_WRITE ∨ op = OPCODE_READ)
      then Some (ScanAddress op) else None
  | ScanAddress op, WirePut _ => Some (ScanData op)
  | ScanData op, WirePut _ =>
      if decide (op = OPCODE_WRITE) then Some (ScanData op) else None
  | ScanData op, WireGet _ =>
      if decide (op = OPCODE_READ) then Some (ScanData op) else None
  | ScanData _, WireHigh => Some ScanIdle
  | _, _ => None
  end.

Fixpoint scan (s : Scan) (l : list Wire) : option Scan :=
  match l with
  | [] => Some s
  | e :: l' =>
      match scan_step s e with
      | Some s' => scan s' l'
      | None => None
      end
  end.

(** An operation of the driver that adds only complete frames to the wire. *)
Definition Framing {Callback A} (m : M Line Callback A) : Prop :=
  ∀ d, ∃ new,
    wire (bus (m d).2) = wire (bus d) ++ new ∧
    scan ScanIdle new = Some ScanIdle.

(* ===================================================================== *)
(** ** shift_register.h, 74HC595.h, line_decoder.h *)
(* ===================================================================== *)

Section ShiftRegister.

Context {W : Type} `{!DrvSPIMaster W} `{!DrvGPIOPin W}.

(** [ShiftRegister<SPIMaster, SSPin, t_nofBytes>::putNextByte(data)], with
    the bytes at and after the pointer as a list.  The specialization for
    one byte ends the recursion; the one for zero bytes is declared and not
    defined, and nothing in the code keeps the pointer inside the data:
    both are [None]. *)
Fixpoint putNextByte (t_nofBytes : nat) (data : list Z) (w : W) : option W :=
  match t_nofBytes with
  | O => None
  | S O =>
      match data with
      | b :: _ => Some (SPIMaster_put b w)
      | [] => None
      end
  | S (S _ as Next) =>
      match data with
      | b :: rest => putNextByte Next rest (SPIMaster_put b w)
      | [] => None
      end
  end.

(** [ShiftRegister<SPIMaster, SSPin, t_nofBytes>::put(data)]. *)
Definition ShiftRegister_put (t_nofBytes : nat) (data : list Z) (w : W)
  : option W :=
  SSPin_high <$> putNextByte t_nofBytes data (SSPin_low w).

(** [_74HC595<SPIMaster, SSPin, t_nofDevices>::putDaisyChain(data)]. *)
Fixpoint putDaisyChain (t_nofDevices : nat) (data : list Z) (w : W) : option W :=
  match t_nofDevices with
  | O => None
  | S O =>
      match data with
      | b :: _ => Some (SPIMaster_put b w)
      | [] => None
      end
  | S (S _ as NextDevice) =>
      match data with
      | b :: rest => putDaisyChain NextDevice rest (SPIMaster_put b w)
      | [] => None
      end
  end.

(** [_74HC595<SPIMaster, SSPin, t_nofDevices>::put(data)]. *)
Definition _74HC595_put (t_nofDevices : nat) (data : list Z) (w : W)
  : option W :=
  SSPin_high <$> putDaisyChain t_nofDevices data (SSPin_low w).

End ShiftRegister.

(* 25LC512.h *)

Definition INSTRUCTION_READ : Z := 3.
Definition INSTRUCTION_WRITE : Z := 2.
Definition INSTRUCTION_WREN : Z := 6.

Section EEPROM.

Context {W : Type} `{!DrvSPIMaster W} `{!DrvGPIOPin W}.

(** [_25LC512<SPIMaster, SSPin>::init()]. *)
Definition _25LC512_init (w : W) : W :=
  SSPin_high (SPIMaster_put (uint8 INSTRUCTION_WREN) (SSPin_low w)).

(** [_25LC512<SPIMaster, SSPin>::write(address, data)] for one byte. *)
Definition _25LC512_write (address data : Z) (w : W) : W :=
  let address := uint16 address in
  let data := uint8 data in
  let w := SSPin_low w in
  let w := SPIMaster_put (uint8 INSTRUCTION_WRITE) w in
  let w := SPIMaster_put (uint8 address) w in
  let w := SPIMaster_put (uint8 (Z.shiftr address 8)) w in
  let w := SPIMaster_put data w in
  SSPin_high w.

(** [_25LC512<SPIMaster, SSPin>::read(address)] for one byte. *)
Definition _25LC512_read (address : Z) (w : W) : Z * W :=
  let address := uint16 address in
  let w := SSPin_low w in
  let w := SPIMaster_put (uint8 INSTRUCTION_READ) w in
  let w := SPIMaster_put (uint8 address) w in
  let w := SPIMaster_put (uint8 (Z.shiftr address 8)) w in
  let '(data, w) := SPIMaster_get w in
  let data := uint8 data in
  (data, SSPin_high w).

End EEPROM.

(** [LineDecoder<Port>::nofLines()], [1 << nofInputLines()] returned as
    [uint8_t], for a port of [getNofPins] pins. *)
Definition nofLines (getNofPins : Z) : Z := uint8 (Z.shiftl 1 getNofPins).

(* ===================================================================== *)
(** ** Arithmetic of the unsigned conversions and of single bits *)
(* ===================================================================== *)

Lemma uint8_range x : 0 ≤ uint8 x < 256.
Proof. unfold uint8. apply Z.mod_pos_bound. lia. Qed.

Lemma uint16_range x : 0 ≤ uint16 x < 65536.
Proof. unfold uint16. apply Z.mod_pos_bound. lia. Qed.

Lemma uint8_small x : 0 ≤ x < 256 → uint8 x = x.
Proof. intros. unfold uint8. apply Z.mod_small. lia. Qed.

Lemma uint16_small x : 0 ≤ x < 65536 → uint16 x = x.
Proof. intros. unfold uint16. apply Z.mod_small. lia. Qed.

Lemma reg_range rs a : 0 ≤ reg rs a < 256.
Proof. apply uint8_range. Qed.

Lemma uint8_reg rs a : uint8 (reg rs a) = reg rs a.
Proof. apply uint8_small, reg_range. Qed.

Lemma reg_insert_eq rs a v : reg (<[a := uint8 v]> rs) a = uint8 v.
Proof.
  unfold reg. rewrite lookup_insert_eq. simpl.
  apply uint8_small, uint8_range.
Qed.

Lemma reg_insert_ne rs a b v : a ≠ b → reg (<[a := v]> rs) b = reg rs b.
Proof. intros. unfold reg. by rewrite lookup_insert_ne. Qed.

Lemma advance_even rs r : 0 ≤ r < 256 → Z.even r = true → advance rs r = r + 1.
Proof.
  intros Hr He. unfold advance.
  assert (Hodd : r mod 2 = 0) by (rewrite Zmod_even, He; done).
  destruct (Z.testbit _ _).
  - rewrite <- Z.add_nocarry_lxor; [done |].
    change 1 with (Z.ones 1). rewrite Z.land_ones by lia. exact Hodd.
  - apply uint8_small.
    assert (r ≠ 255) by (intros ->; discriminate).
    lia.
Qed.

(** *** The register transport on the simulated register file *)

Section Transport.

Context {Callback : Type}.
Implicit Types (c : Chip) (cbs : gmap MCP23S17PinIdx Callback)
               (cs : list (Call Callback)).

Lemma sim_readRegister a c cbs cs :
  0 ≤ a < 256 →
  readRegister a (mkDriver c cbs cs) =
    (reg (regs c) a,
     mkDriver (mkChip (regs c) Deselected
                 (frames c ++ [mkFrame OPCODE_READ a [reg (regs c) a]]))
              cbs cs).
Proof.
  intros Ha. unfold readRegister, bind, on_bus, from_bus, ret. simpl.
  rewrite (uint8_small a) by done.
  unfold chip_put, chip_low, chip_get, chip_high. simpl.
  by rewrite uint8_reg.
Qed.

Lemma sim_writeRegister a v c cbs cs :
  0 ≤ a < 256 →
  writeRegister a v (mkDriver c cbs cs) =
    (tt,
     mkDriver (mkChip (<[a := uint8 v]> (regs c)) Deselected
                 (frames c ++ [mkFrame OPCODE_WRITE a [uint8 v]]))
              cbs cs).
Proof.
  intros Ha. unfold writeRegister, bind, on_bus. simpl.
  rewrite (uint8_small a) by done.
  unfold chip_put, chip_low, chip_high. simpl.
  by rewrite (uint8_small (uint8 v)) by apply uint8_range.
Qed.

Lemma sim_readRegisterPair a c cbs cs :
  0 ≤ a < 256 → Z.even a = true →
  readRegisterPair a (mkDriver c cbs cs) =
    (Z.shiftl (reg (regs c) a) 8 + reg (regs c) (a + 1),
     mkDriver (mkChip (regs c) Deselected
                 (frames c ++ [mkFrame OPCODE_READ a
                                 [reg (regs c) a; reg (regs c) (a + 1)]]))
              cbs cs).
Proof.
  intros Ha He. unfold readRegisterPair, bind, on_bus, from_bus, ret. simpl.
  rewrite (uint8_small a) by done.
  unfold chip_put, chip_low, chip_get, chip_high. simpl.
  rewrite (advance_even _ a) by done.
  pose proof (reg_range (regs c) a). pose proof (reg_range (regs c) (a + 1)).
  rewrite !Z.shiftl_mul_pow2 by lia. change (2 ^ 8) with 256.
  rewrite (uint16_small (reg (regs c) a)) by lia.
  rewrite (uint16_small (reg (regs c) (a + 1))) by lia.
  rewrite (uint16_small (reg (regs c) a * 256)) by lia.
  rewrite uint16_small by lia.
  done.
Qed.

Lemma sim_writeRegisterPair a v c cbs cs :
  0 ≤ a < 256 → Z.even a = true →
  let hi := uint8 (Z.shiftr (uint16 v) 8) in
  let lo := uint8 (uint16 v) in
  writeRegisterPair a v (mkDriver c cbs cs) =
    (tt,
     mkDriver (mkChip (<[a + 1 := lo]> (<[a := hi]> (regs c))) Deselected
                 (frames c ++ [mkFrame OPCODE_WRITE a [hi; lo]]))
              cbs cs).
Proof.
  intros Ha He hi lo. unfold writeRegisterPair, bind, on_bus. simpl.
  rewrite (uint8_small a) by done.
  unfold chip_put, chip_low, chip_high. simpl.
  rewrite (advance_even _ a) by done.
  fold hi lo.
  rewrite (uint8_small hi) by apply uint8_range.
  rewrite (uint8_small lo) by apply uint8_range.
  done.
Qed.

(** C8.  Writing a 16-bit value to a register pair and reading the pair
    back returns the value: the write frame carries the high byte first (it
    lands in the register of port A, at the pair address) and the low byte
    second (port B, at the next address); the read takes the two bytes in the
    same order and returns [(high << 8) + low]. *)
Theorem writeRegisterPair_readRegisterPair (r v : Z) (d : Driver Chip Callback) :
  0 ≤ r < 256 → Z.even r = true → 0 ≤ v < 65536 →
  let d1 := (writeRegisterPair r v d).2 in
  let high := reg (regs (bus d1)) r in
  let low := reg (regs (bus d1)) (r + 1) in
  frames (bus d1)
    = frames (bus d) ++ [mkFrame OPCODE_WRITE r [Z.shiftr v 8; Z.land v 255]] ∧
  high = Z.shiftr v 8 ∧ low = Z.land v 255 ∧
  frames (bus (readRegisterPair r d1).2)
    = frames (bus d1) ++ [mkFrame OPCODE_READ r [high; low]] ∧
  (readRegisterPair r d1).1 = Z.shiftl high 8 + low ∧
  (readRegisterPair r d1).1 = v.
Proof.
  intros Hr He Hv. destruct d as [c cbs cs].
  rewrite sim_writeRegisterPair by done. cbn [snd bus regs frames].
  rewrite sim_readRegisterPair by done. cbn [fst snd bus regs frames].
  rewrite (uint16_small v) by done.
  assert (Hhi : uint8 (Z.shiftr v 8) = Z.shiftr v 8).
  { apply uint8_small. rewrite Z.shiftr_div_pow2 by lia.
    change (2 ^ 8) with 256. split; [apply Z.div_pos; lia |].
    apply Z.div_lt_upper_bound; lia. }
  assert (Hlo : uint8 v = Z.land v 255).
  { change 255 with (Z.ones 8). by rewrite Z.land_ones by lia. }
  rewrite Hhi, Hlo.
  assert (Hregh : reg (<[r + 1 := Z.land v 255]> (<[r := Z.shiftr v 8]> (regs c))) r
                  = Z.shiftr v 8).
  { rewrite reg_insert_ne by lia. by rewrite <- Hhi at 1; rewrite reg_insert_eq. }
  assert (Hregl : reg (<[r + 1 := Z.land v 255]> (<[r := Z.shiftr v 8]> (regs c))) (r + 1)
                  = Z.land v 255).
  { by rewrite <- Hlo at 1; rewrite reg_insert_eq. }
  rewrite Hregh, Hregl. repeat split.
  rewrite <- Hlo. unfold uint8.
  rewrite Z.shiftl_mul_pow2, Z.shiftr_div_pow2 by lia. change (2 ^ 8) with 256.
  pose proof (Z.div_mod v 256). lia.
Qed.

End Transport.

(** The pull-up pair written with 0xBEEF and read back. *)
Lemma writeRegisterPair_readRegisterPair_witness :
  (readRegisterPair GPPUA
     (writeRegisterPair GPPUA 0xBEEF (power_on ∅)).2).1 = 0xBEEF.
Proof.
  apply (writeRegisterPair_readRegisterPair GPPUA 0xBEEF (power_on ∅));
    [unfold GPPUA; lia | reflexivity | lia].
Defined.

(** *** Single bits *)

Lemma land_BV z k :
  0 ≤ k → bool_decide (Z.land z (_BV k) ≠ 0) = Z.testbit z k.
Proof.
  intros Hk. unfold _BV. rewrite Z.shiftl_1_l.
  destruct (Z.testbit z k) eqn:Hb.
  - apply bool_decide_eq_true. intros H0.
    assert (Z.testbit (Z.land z (2 ^ k)) k = true) as Ht.
    { rewrite Z.land_spec, Hb, Z.pow2_bits_true by done. done. }
    rewrite H0, Z.bits_0 in Ht. discriminate.
  - apply bool_decide_eq_false. intros H0. apply H0.
    apply Z.bits_inj'. intros m Hm.
    rewrite Z.land_spec, Z.bits_0, Z.pow2_bits_eqb by done.
    destruct (Z.eqb_spec k m) as [-> | _]; [by rewrite Hb | apply andb_false_r].
Qed.

Lemma getBitmask_pow2 i : getBitmask i = _BV (pinIdx_value i mod 8).
Proof. by destruct i. Qed.

Lemma land_getBitmask v i :
  bool_decide (Z.land v (getBitmask i) ≠ 0) = Z.testbit v (pinIdx_value i mod 8).
Proof. rewrite getBitmask_pow2. apply land_BV. by destruct i. Qed.

Lemma flagged_testbit INTF i :
  bool_decide (Z.land INTF (_BV (uint16 (pinIdx_value i))) ≠ 0)
  = Z.testbit INTF (pinIdx_value i).
Proof.
  rewrite uint16_small by (destruct i; simpl; lia).
  apply land_BV. by destruct i.
Qed.

(* ===================================================================== *)
(** ** The pin-type table and the configuration resolver *)
(* ===================================================================== *)

(** C5.  The table of register bits: SWITCH and ROTENC_PHASE_A are inputs
    with inverted polarity, interrupt enabled, pull-up enabled, default
    compare value false and interrupt-on-compare false; ROTENC_PHASE_B is
    an input with inverted polarity and pull-up enabled whose interrupt is
    disabled. *)
Theorem pin_type_semantics_table :
  (s_IODIRBit SWITCH = true ∧ s_IPOLBit SWITCH = true ∧
   s_GPINTENBit SWITCH = true ∧ s_GPPUBit SWITCH = true ∧
   s_DEFVALBit SWITCH = false ∧ s_INTCONBit SWITCH = false) ∧
  (s_IODIRBit ROTENC_PHASE_A = true ∧ s_IPOLBit ROTENC_PHASE_A = true ∧
   s_GPINTENBit ROTENC_PHASE_A = true ∧ s_GPPUBit ROTENC_PHASE_A = true ∧
   s_DEFVALBit ROTENC_PHASE_A = false ∧ s_INTCONBit ROTENC_PHASE_A = false) ∧
  (s_IODIRBit ROTENC_PHASE_B = true ∧ s_IPOLBit ROTENC_PHASE_B = true ∧
   s_GPPUBit ROTENC_PHASE_B = true ∧ s_GPINTENBit ROTENC_PHASE_B = false).
Proof. repeat split. Qed.

Lemma PinIdxToPinType_absent i cur next :
  Forall (fun c => s_pinIdx c ≠ i) (cur :: next) →
  PinIdxToPinType i cur next = UNUSED.
Proof.
  revert cur. induction next as [| n rest IH]; intros cur Hall.
  - apply Forall_cons in Hall as [Hcur _]. simpl in *.
    destruct (decide (i = s_pinIdx cur)) as [Heq | _]; [| done].
    by destruct Hcur.
  - apply Forall_cons in Hall as [Hcur Hrest]. simpl in *.
    destruct (decide (i = s_pinIdx cur)) as [Heq | _]; [| by apply IH].
    by destruct Hcur.
Qed.

Lemma bits_to_Z_range l : 0 ≤ bits_to_Z l < 2 ^ Z.of_nat (length l).
Proof.
  induction l as [| b l IH]; [done |].
  cbn [bits_to_Z length]. rewrite Nat2Z.inj_succ, Z.pow_succ_r by lia.
  destruct b; simpl Z.b2z; lia.
Qed.

Lemma bits_to_Z_testbit l n :
  Z.testbit (bits_to_Z l) (Z.of_nat n) = nth n l false.
Proof.
  revert n. induction l as [| b l IH]; intros [| n]; cbn [bits_to_Z nth].
  - done.
  - apply Z.bits_0.
  - rewrite Z.add_comm. apply Z.testbit_0_r.
  - rewrite Nat2Z.inj_succ, Z.add_comm, Z.testbit_succ_r by lia. apply IH.
Qed.

(** The sixteen terms of a register image do not overlap: the sum is the
    number whose binary digits are the table entries of the pins. *)
Lemma registerImage_bits cur next bit :
  registerImage cur next bit
  = bits_to_Z (map (fun i => bit (Pin cur next i)) all_pins).
Proof.
  unfold registerImage. cbn [map all_pins bits_to_Z].
  repeat match goal with
    | |- context [if ?b then ?e else 0] =>
        let w := eval cbv in e in
        replace (if b then e else 0) with (w * Z.b2z b)
          by (destruct b; reflexivity)
    end.
  lia.
Qed.

Lemma registerImage_range cur next bit :
  0 ≤ registerImage cur next bit < 65536.
Proof.
  rewrite registerImage_bits.
  apply (bits_to_Z_range (map (fun i => bit (Pin cur next i)) all_pins)).
Qed.

(** Bit [i] of a register image is the table entry of the type of pin [i]. *)
Lemma registerImage_testbit cur next bit i :
  Z.testbit (uint16 (registerImage cur next bit)) (pinIdx_value i)
  = bit (Pin cur next i).
Proof.
  rewrite uint16_small by apply registerImage_range.
  rewrite registerImage_bits.
  replace (pinIdx_value i) with (Z.of_nat (Z.to_nat (pinIdx_value i)))
    by (by destruct i).
  rewrite bits_to_Z_testbit. by destruct i.
Qed.

(** C7.  A pin index that no entry of the configuration pack names resolves
    to UNUSED; its six register bits are false, in the table and in the six
    register images written by [init]. *)
Theorem unconfigured_pin_is_UNUSED cur next i :
  Forall (fun c => s_pinIdx c ≠ i) (cur :: next) →
  Pin cur next i = UNUSED ∧
  (s_IODIRBit (Pin cur next i) = false ∧ s_IPOLBit (Pin cur next i) = false ∧
   s_GPINTENBit (Pin cur next i) = false ∧ s_DEFVALBit (Pin cur next i) = false ∧
   s_INTCONBit (Pin cur next i) = false ∧ s_GPPUBit (Pin cur next i) = false) ∧
  Forall (fun bit =>
            Z.testbit (uint16 (registerImage cur next bit)) (pinIdx_value i) = false)
         [s_IODIRBit; s_IPOLBit; s_GPINTENBit; s_DEFVALBit; s_INTCONBit; s_GPPUBit].
Proof.
  intros Habsent.
  assert (Hty : Pin cur next i = UNUSED) by by apply PinIdxToPinType_absent.
  split; [done |]. split; [by rewrite Hty |].
  repeat constructor; by rewrite registerImage_testbit, Hty.
Qed.

(** A7 in a pack that configures B0, A3 and B2. *)
Lemma unconfigured_pin_is_UNUSED_witness :
  Pin (mkPinConfig B0 SWITCH) [mkPinConfig A3 OUTPUT; mkPinConfig B2 ROTENC_PHASE_B] A7
  = UNUSED.
Proof.
  apply (unconfigured_pin_is_UNUSED
           (mkPinConfig B0 SWITCH)
           [mkPinConfig A3 OUTPUT; mkPinConfig B2 ROTENC_PHASE_B] A7).
  repeat constructor; simpl; discriminate.
Defined.

(* ===================================================================== *)
(** ** Interrupt dispatch on any bus *)
(* ===================================================================== *)

Lemma notified_app {Callback} (cs1 cs2 : list (Call Callback)) :
  notified (cs1 ++ cs2) = notified cs1 ++ notified cs2.
Proof. apply omap_app. Qed.

Lemma popcount_bits_to_Z l :
  popcount (bits_to_Z l) = length (List.filter id l).
Proof.
  induction l as [| b l IH]; [done |].
  cbn [bits_to_Z List.filter]. pose proof (bits_to_Z_range l) as [Hl _].
  destruct (bits_to_Z l) as [| p | p] eqn:Hz; [| | lia];
    destruct b; simpl in *; rewrite ?Pos.mul_1_l; lia.
Qed.

Lemma filter_map_length {A} (g : A → bool) (l : list A) :
  length (List.filter id (map g l)) = length (List.filter g l).
Proof.
  induction l as [| x l IH]; [done |]. simpl. unfold id at 1.
  destruct (g x); simpl; [f_equal |]; apply IH.
Qed.

Lemma testbit_high z n : 0 ≤ z < 65536 → 16 ≤ n → Z.testbit z n = false.
Proof.
  intros Hz Hn. rewrite <- (Z.mod_small z (2 ^ 16)) by (change (2 ^ 16) with 65536; lia).
  apply Z.mod_pow2_bits_high. lia.
Qed.

Lemma word_as_bits z :
  0 ≤ z < 65536 →
  z = bits_to_Z (map (fun i => Z.testbit z (pinIdx_value i)) all_pins).
Proof.
  intros Hz. apply Z.bits_inj'. intros n Hn.
  destruct (decide (n < 16)) as [Hlt | Hge].
  - replace n with (Z.of_nat (Z.to_nat n)) at 2 by lia.
    rewrite bits_to_Z_testbit.
    assert (Hcase : ∃ k, (k < 16)%nat ∧ n = Z.of_nat k)
      by (exists (Z.to_nat n); lia).
    destruct Hcase as (k & Hk & ->). rewrite Nat2Z.id.
    do 16 (destruct k as [| k]; [reflexivity |]). lia.
  - rewrite testbit_high by lia. symmetry. apply testbit_high; [| lia].
    apply (bits_to_Z_range (map _ all_pins)).
Qed.

(** The number of flagged pins is the number of ones of the flag word. *)
Lemma flagged_length INTF :
  0 ≤ INTF < 65536 → length (flagged INTF) = popcount INTF.
Proof.
  intros HINTF. rewrite (word_as_bits INTF) at 2 by done.
  rewrite popcount_bits_to_Z. unfold flagged. by rewrite filter_map_length.
Qed.

Section Dispatch.

Context {W : Type} `{!DrvSPIMaster W} `{!DrvGPIOPin W} {Callback : Type}.
Variable cur : MCP23S17PinConfig.
Variable next : list MCP23S17PinConfig.
Implicit Types (w : W) (cbs : gmap MCP23S17PinIdx Callback)
               (cs : list (Call Callback)) (d : Driver W Callback).

(** The register transport acts on the bus alone. *)
Lemma readRegister_bus a w :
  ∃ v w', ∀ cbs cs,
    readRegister a (mkDriver w cbs cs) = (v, mkDriver w' cbs cs).
Proof.
  unfold readRegister, bind, on_bus, from_bus, ret. cbn [bus s_callback calls].
  destruct (SPIMaster_get _) as [v w'] eqn:Hget.
  exists (uint8 v), (SSPin_high w'). intros cbs cs. reflexivity.
Qed.

Lemma readRegisterPair_bus a w :
  ∃ v w', 0 ≤ v < 65536 ∧ ∀ cbs cs,
    readRegisterPair a (mkDriver w cbs cs) = (v, mkDriver w' cbs cs).
Proof.
  unfold readRegisterPair, bind, on_bus, from_bus, ret. cbn [bus s_callback calls].
  destruct (SPIMaster_get _) as [vA wA] eqn:HgetA.
  destruct (SPIMaster_get wA) as [vB wB] eqn:HgetB.
  exists (uint16 (uint16 (Z.shiftl (uint16 vA) 8) + uint16 vB)), (SSPin_high wB).
  split; [apply uint16_range |]. intros cbs cs.
  cbn [bus s_callback calls]. by rewrite HgetB.
Qed.

Lemma readINTCAP_bus i w :
  ∃ b w', ∀ cbs cs,
    readINTCAP i (mkDriver w cbs cs) = (b, mkDriver w' cbs cs).
Proof.
  unfold readINTCAP, bind, ret.
  destruct (readRegister_bus (if t_portA i then INTCAPA else INTCAPB) w)
    as (v & w' & Hread).
  exists (bool_decide (Z.land v (getBitmask i) ≠ 0)), w'.
  intros cbs cs. rewrite Hread. reflexivity.
Qed.

(** [notify] of pin [i] records its own entry, then at most the invocation
    of the slot of pin [i]; it leaves every slot as it was. *)
Lemma notify_bus i w :
  ∃ (b : bool) (w' : W), ∀ cbs cs,
    notify cur next i (mkDriver w cbs cs)
    = (tt, mkDriver w' cbs
             (cs ++ CallNotify i ::
                    (if b then [CallCallback i (cbs !! i)] else []))).
Proof.
  unfold notify, bind, record. cbn [bus s_callback calls].
  destruct (readINTCAP_bus i w) as (b & w' & Hread).
  destruct (Pin cur next i).
  1-4, 7: exists false, w; intros cbs cs; reflexivity.
  all: exists b, w'; intros cbs cs; rewrite Hread;
       destruct b; unfold invoke_s_callback, record, ret; cbn [bus s_callback calls];
       by rewrite <- ?app_assoc.
Qed.

Lemma dispatch_bus INTF i w :
  ∃ (w' : W) (new : gmap MCP23S17PinIdx Callback → list (Call Callback)),
    (∀ cbs, notified (new cbs)
            = if Z.testbit INTF (pinIdx_value i) then [i] else []) ∧
    ∀ cbs cs,
      dispatch cur next INTF i (mkDriver w cbs cs)
      = (tt, mkDriver w' cbs (cs ++ new cbs)).
Proof.
  unfold dispatch, when. rewrite flagged_testbit.
  destruct (Z.testbit INTF (pinIdx_value i)).
  - destruct (notify_bus i w) as (b & w' & Hnotify).
    exists w', (fun cbs => CallNotify i ::
                           (if b then [CallCallback i (cbs !! i)] else [])).
    split; [by destruct b | exact Hnotify].
  - exists w, (fun _ => []). split; [done |].
    intros cbs cs. unfold ret. by rewrite app_nil_r.
Qed.

Lemma dispatch_list_bus INTF l w :
  ∃ (w' : W) (new : gmap MCP23S17PinIdx Callback → list (Call Callback)),
    (∀ cbs, notified (new cbs)
            = List.filter (fun i => Z.testbit INTF (pinIdx_value i)) l) ∧
    ∀ cbs cs,
      dispatch_list cur next INTF l (mkDriver w cbs cs)
      = (tt, mkDriver w' cbs (cs ++ new cbs)).
Proof.
  revert w. induction l as [| i l IH]; intros w.
  - exists w, (fun _ => []). split; [done |].
    intros cbs cs. unfold dispatch_list, ret. by rewrite app_nil_r.
  - destruct (dispatch_bus INTF i w) as (w1 & new1 & Hn1 & Hd1).
    destruct (IH w1) as (w2 & new2 & Hn2 & Hd2).
    exists w2, (fun cbs => new1 cbs ++ new2 cbs). split.
    + intros cbs. rewrite notified_app, Hn1, Hn2. cbn [List.filter].
      by destruct (Z.testbit INTF (pinIdx_value i)).
    + intros cbs cs. cbn [dispatch_list]. unfold bind.
      rewrite Hd1, Hd2. by rewrite app_assoc.
Qed.

(** [onInterrupt] is the flag read followed by the dispatches over
    [all_pins]. *)
Lemma onInterrupt_dispatch_list d :
  onInterrupt cur next d
  = (INTF <- readRegisterPair INTFA ;; dispatch_list cur next INTF all_pins) d.
Proof.
  unfold onInterrupt, all_pins, dispatch_list, bind, ret.
  destruct (readRegisterPair INTFA d) as [INTF d0].
  repeat match goal with
    | |- context [dispatch cur next INTF ?i ?x] =>
        destruct (dispatch cur next INTF i x) as [[] ?]
    end.
  reflexivity.
Qed.

(** C3.  Within one call of [onInterrupt], [notify] is entered once for
    each set bit of the interrupt-flag word read at the start of the call,
    in the order B0..B7, A0..A7, and for no other pin: as many times as the
    word has bits set. *)
Theorem onInterrupt_notifies_each_flagged_pin_once d :
  let INTF := (readRegisterPair INTFA d).1 in
  ∃ new,
    calls (onInterrupt cur next d).2 = calls d ++ new ∧
    notified new
      = List.filter (fun i => Z.testbit INTF (pinIdx_value i)) all_pins ∧
    length (notified new) = popcount INTF.
Proof.
  destruct d as [w cbs cs]. cbn zeta.
  rewrite onInterrupt_dispatch_list. unfold bind.
  destruct (readRegisterPair_bus INTFA w) as (INTF & w0 & HINTF & Hread).
  rewrite Hread. cbn [fst].
  destruct (dispatch_list_bus INTF all_pins w0) as (w1 & new & Hnew & Hrun).
  rewrite Hrun. cbn [snd calls].
  exists (new cbs). split; [done |]. split; [apply Hnew |].
  rewrite Hnew. by apply flagged_length.
Qed.

(** C10.  With two distinct pins [p] and [q] of a type that has a callback,
    [registerCallback] on [p] stores the callback in the slot of [p] and
    leaves the slot of [q], and of every other pin, as it was; [notify] of
    every pin other than [p] does on the bus, and records, what it did
    before. *)
Theorem registerCallback_replaces_own_slot_only p q (callback : Callback) d :
  p ≠ q →
  has_callback (Pin cur next p) = true →
  has_callback (Pin cur next q) = true →
  ∃ register,
    registerCallback cur next p = Some register ∧
    let d' := (register callback d).2 in
    s_callback d' !! p = Some callback ∧
    s_callback d' !! q = s_callback d !! q ∧
    (∀ r, r ≠ p → s_callback d' !! r = s_callback d !! r) ∧
    bus d' = bus d ∧ calls d' = calls d ∧
    ∀ r, r ≠ p →
      bus (notify cur next r d').2 = bus (notify cur next r d).2 ∧
      calls (notify cur next r d').2 = calls (notify cur next r d).2 ∧
      s_callback (notify cur next r d').2 = s_callback d'.
Proof.
  intros Hpq Hp _. unfold registerCallback. rewrite Hp.
  eexists. split; [reflexivity |]. destruct d as [w cbs cs].
  cbn [snd bus s_callback calls].
  split; [apply lookup_insert_eq |].
  split; [by apply lookup_insert_ne |].
  split; [intros r Hr; by apply lookup_insert_ne |].
  do 2 (split; [done |]).
  intros r Hr. destruct (notify_bus r w) as (b & w' & Hnotify).
  rewrite !Hnotify. cbn [snd bus s_callback calls].
  by rewrite lookup_insert_ne.
Qed.

End Dispatch.

(* ===================================================================== *)
(** ** Interrupt dispatch and pin access on the simulated register file *)
(* ===================================================================== *)

Lemma INTCAP_of_range i : 0 ≤ INTCAP_of i < 256.
Proof. unfold INTCAP_of, INTCAPA, INTCAPB. destruct (t_portA i); lia. Qed.

Lemma OLAT_of_range i : 0 ≤ OLAT_of i < 256.
Proof. unfold OLAT_of, OLATA, OLATB. destruct (t_portA i); lia. Qed.

Lemma pin_bit_range i : 0 ≤ pinIdx_value i mod 8 < 8.
Proof. apply Z.mod_pos_bound. lia. Qed.

Section Simulated.

Context {Callback : Type}.
Variable cur : MCP23S17PinConfig.
Variable next : list MCP23S17PinConfig.
Implicit Types (rs : gmap Z Z) (fs : list Frame) (st : Stage)
               (cbs : gmap MCP23S17PinIdx Callback)
               (cs : list (Call Callback)) (d : Driver Chip Callback).

Lemma sim_readINTCAP i rs st fs cbs cs :
  readINTCAP i (mkDriver (mkChip rs st fs) cbs cs)
  = (Z.testbit (reg rs (INTCAP_of i)) (pinIdx_value i mod 8),
     mkDriver (mkChip rs Deselected
                 (fs ++ [mkFrame OPCODE_READ (INTCAP_of i) [reg rs (INTCAP_of i)]]))
              cbs cs).
Proof.
  unfold readINTCAP, bind, ret. fold (INTCAP_of i).
  rewrite sim_readRegister by apply INTCAP_of_range.
  by rewrite land_getBitmask.
Qed.

Lemma sim_notify i rs fs cbs cs :
  notify cur next i (mkDriver (mkChip rs Deselected fs) cbs cs)
  = (tt, mkDriver (mkChip rs Deselected (fs ++ notify_frames cur next rs i)) cbs
                  (cs ++ notify_calls cur next rs cbs i)).
Proof.
  unfold notify, notify_frames, notify_calls, bind, record.
  cbn [bus s_callback calls].
  destruct (Pin cur next i); cbn [has_callback andb];
    rewrite ?sim_readINTCAP, ?app_nil_r; unfold ret; try reflexivity.
  all: destruct (Z.testbit _ _); unfold invoke_s_callback, record, ret;
       cbn [bus s_callback calls]; by rewrite <- ?app_assoc.
Qed.

Lemma sim_dispatch_list INTF l rs fs cbs cs :
  let hit := List.filter (fun i => Z.testbit INTF (pinIdx_value i)) l in
  dispatch_list cur next INTF l (mkDriver (mkChip rs Deselected fs) cbs cs)
  = (tt, mkDriver
           (mkChip rs Deselected
              (fs ++ concat (map (notify_frames cur next rs) hit)))
           cbs (cs ++ concat (map (notify_calls cur next rs cbs) hit))).
Proof.
  cbn zeta. revert fs cs. induction l as [| i l IH]; intros fs cs.
  - cbn. unfold ret. by rewrite !app_nil_r.
  - cbn [dispatch_list List.filter]. unfold bind, dispatch, when.
    rewrite flagged_testbit.
    destruct (Z.testbit INTF (pinIdx_value i)).
    + rewrite sim_notify, IH. cbn [map concat]. by rewrite !app_assoc.
    + unfold ret. by rewrite IH.
Qed.

Lemma sim_onInterrupt d :
  let rs := regs (bus d) in
  let INTF := Z.shiftl (reg rs INTFA) 8 + reg rs INTFB in
  onInterrupt cur next d
  = (tt, mkDriver
           (mkChip rs Deselected
              (frames (bus d) ++
               mkFrame OPCODE_READ INTFA [reg rs INTFA; reg rs INTFB] ::
               concat (map (notify_frames cur next rs) (flagged INTF))))
           (s_callback d)
           (calls d ++
            concat (map (notify_calls cur next rs (s_callback d)) (flagged INTF)))).
Proof.
  destruct d as [c cbs cs]. cbn [bus s_callback calls]. cbn zeta.
  rewrite onInterrupt_dispatch_list. unfold bind.
  rewrite sim_readRegisterPair by (unfold INTFA; done).
  change (INTFA + 1) with INTFB.
  rewrite sim_dispatch_list. unfold flagged. by rewrite <- app_assoc.
Qed.

Lemma notify_frames_concat rs l :
  concat (map (notify_frames cur next rs) l)
  = map (fun i => mkFrame OPCODE_READ (INTCAP_of i) [reg rs (INTCAP_of i)])
        (List.filter (fun i => has_callback (Pin cur next i)) l).
Proof.
  induction l as [| i l IH]; [done |].
  cbn [map concat List.filter]. unfold notify_frames at 1.
  destruct (has_callback (Pin cur next i)); cbn; by rewrite IH.
Qed.

Lemma capture_reads_app fs1 fs2 :
  capture_reads (fs1 ++ fs2) = (capture_reads fs1 + capture_reads fs2)%nat.
Proof. unfold capture_reads. by rewrite List.filter_app, length_app. Qed.

Lemma capture_reads_notify_frames rs l :
  capture_reads (concat (map (notify_frames cur next rs) l))
  = length (List.filter (fun i => has_callback (Pin cur next i)) l).
Proof.
  rewrite notify_frames_concat.
  induction (List.filter _ l) as [| i l' IH]; [done |].
  cbn [map]. change (?x :: ?l) with ([x] ++ l).
  rewrite capture_reads_app, IH, length_app.
  f_equal. unfold INTCAP_of. by destruct (t_portA i).
Qed.

(** C1, as the code has it.  One call of [onInterrupt] reads the
    interrupt-flag pair once and never reads the capture pair as a 16-bit
    value: after the flag read come single-register reads only, one for each
    flagged pin of a type with a callback, in dispatch order, each of the
    capture register of that pin's port.  [notify] takes its bit from the
    byte of its own read: the slot of a flagged SWITCH or ROTENC_PHASE_A pin
    is invoked exactly when bit [index mod 8] of that byte is set. *)
Theorem onInterrupt_reads_capture_register_per_pin d :
  let rs := regs (bus d) in
  let INTF := Z.shiftl (reg rs INTFA) 8 + reg rs INTFB in
  let d' := (onInterrupt cur next d).2 in
  frames (bus d')
    = frames (bus d) ++
      mkFrame OPCODE_READ INTFA [reg rs INTFA; reg rs INTFB] ::
      map (fun i => mkFrame OPCODE_READ (INTCAP_of i) [reg rs (INTCAP_of i)])
          (List.filter (fun i => has_callback (Pin cur next i)) (flagged INTF)) ∧
  calls d'
    = calls d ++
      concat (map (fun i =>
                     CallNotify i ::
                     (if has_callback (Pin cur next i) &&
                         Z.testbit (reg rs (INTCAP_of i)) (pinIdx_value i mod 8)
                      then [CallCallback i (s_callback d !! i)]
                      else []))
                  (flagged INTF)).
Proof.
  cbn zeta. rewrite sim_onInterrupt. cbn [snd bus frames calls].
  by rewrite notify_frames_concat.
Qed.

(** C2, as the code has it.  [onInterrupt] has no re-arm step of its own:
    the capture-register reads of one call are those of the flagged pins of
    a type with a callback, one each, so there is none when no such pin is
    flagged.  The re-arm is the separate [reArmInterrupt], which reads the
    capture register pair whatever the state. *)
Theorem onInterrupt_capture_reads_only_for_callback_pins d :
  let rs := regs (bus d) in
  let INTF := Z.shiftl (reg rs INTFA) 8 + reg rs INTFB in
  (∃ new,
     frames (bus (onInterrupt cur next d).2) = frames (bus d) ++ new ∧
     capture_reads new
       = length (List.filter (fun i => has_callback (Pin cur next i))
                             (flagged INTF))) ∧
  frames (bus (reArmInterrupt d).2)
    = frames (bus d) ++
      [mkFrame OPCODE_READ INTCAPA [reg rs INTCAPA; reg rs INTCAPB]].
Proof.
  cbn zeta. split.
  - rewrite sim_onInterrupt. cbn [snd bus frames]. eexists. split; [reflexivity |].
    change (?x :: ?l) with ([x] ++ l).
    rewrite capture_reads_app, capture_reads_notify_frames. reflexivity.
  - destruct d as [c cbs cs]. unfold reArmInterrupt, bind, ret.
    rewrite sim_readRegisterPair by (unfold INTCAPA; done). reflexivity.
Qed.

(** C6.  [read] of a ROTENC_PHASE_B pin returns the bit of the pin in the
    capture register of its port: bit [index mod 8] of INTCAPA for the pins
    A0..A7 (index 8 and above), of INTCAPB for the pins B0..B7.  It is one
    read of that register and of no other.  The live port registers have
    no part in it: the value is the same whatever is put into GPIOA and
    GPIOB, and a second [read] returns it again. *)
Theorem phase_B_read_returns_captured_bit i d (liveA liveB : Z) :
  Pin cur next i = ROTENC_PHASE_B →
  let INTCAP := if decide (8 ≤ pinIdx_value i) then INTCAPA else INTCAPB in
  ∃ read,
    Pin_read cur next i = Some read ∧
    (read d).1
      = Z.testbit (reg (regs (bus d)) INTCAP) (pinIdx_value i mod 8) ∧
    frames (bus (read d).2)
      = frames (bus d) ++
        [mkFrame OPCODE_READ INTCAP [reg (regs (bus d)) INTCAP]] ∧
    (read (mkDriver
             (mkChip (<[GPIOA := liveA]> (<[GPIOB := liveB]> (regs (bus d))))
                     (stage (bus d)) (frames (bus d)))
             (s_callback d) (calls d))).1
      = (read d).1 ∧
    (read (read d).2).1 = (read d).1.
Proof.
  intros Hty. cbn zeta. unfold Pin_read. rewrite Hty.
  eexists. split; [reflexivity |].
  assert (Hport : INTCAP_of i
                  = if decide (8 ≤ pinIdx_value i) then INTCAPA else INTCAPB)
    by (by destruct i).
  destruct d as [[rs st fs] cbs cs]. cbn [bus regs stage frames s_callback calls].
  repeat (rewrite sim_readINTCAP; cbn [fst snd bus frames]).
  rewrite <- Hport.
  split; [done |]. split; [done |]. split; [| done].
  rewrite !reg_insert_ne; [done | |];
    unfold INTCAP_of, GPIOA, GPIOB, INTCAPA, INTCAPB; by destruct (t_portA i).
Qed.

End Simulated.

Section Latch.

Context {Callback : Type}.
Implicit Types (rs : gmap Z Z) (fs : list Frame) (st : Stage)
               (cbs : gmap MCP23S17PinIdx Callback)
               (cs : list (Call Callback)) (d : Driver Chip Callback).

Lemma sim_writeOLAT i (b : bool) rs st fs cbs cs :
  let old := reg rs (OLAT_of i) in
  let new := uint8 (if b then Z.lor old (getBitmask i)
                    else Z.land old (Z.lnot (getBitmask i))) in
  writeOLAT i b (mkDriver (mkChip rs st fs) cbs cs)
  = (tt, mkDriver
           (mkChip (<[OLAT_of i := new]> rs) Deselected
              (fs ++ [mkFrame OPCODE_READ (OLAT_of i) [old];
                      mkFrame OPCODE_WRITE (OLAT_of i) [new]]))
           cbs cs).
Proof.
  cbn zeta. unfold writeOLAT. fold (OLAT_of i). pose proof (OLAT_of_range i).
  destruct b; unfold bind; rewrite sim_readRegister by done;
    rewrite sim_writeRegister by done; cbn [regs frames];
    by rewrite <- app_assoc.
Qed.

Lemma uint8_testbit x k :
  0 ≤ k → Z.testbit (uint8 x) k = bool_decide (k < 8) && Z.testbit x k.
Proof.
  intros Hk. unfold uint8. change 256 with (2 ^ 8).
  destruct (decide (k < 8)) as [Hlt | Hge].
  - rewrite bool_decide_eq_true_2 by done. by apply Z.mod_pow2_bits_low.
  - rewrite bool_decide_eq_false_2 by done. apply Z.mod_pow2_bits_high. lia.
Qed.

(** C9, as the code has it.  The OUTPUT specialization of the pin class has
    no [write] among its public members.  The read-modify-write of the
    latch is the accessor of [PinRegisterAccess] ([writeOLATA] on port A,
    [writeOLAT] on port B): it reads the latch register of the pin's port
    and writes it back with the bit of the pin set to the argument, every
    other bit of that register as it was read, and it writes no other
    register. *)
Theorem latch_accessor_changes_own_bit_only i (b : bool) d :
  let d' := (writeOLAT i b d).2 in
  let old := reg (regs (bus d)) (OLAT_of i) in
  let new := reg (regs (bus d')) (OLAT_of i) in
  ¬ In "write"%string (Pin_public_members OUTPUT) ∧
  frames (bus d')
    = frames (bus d) ++ [mkFrame OPCODE_READ (OLAT_of i) [old];
                         mkFrame OPCODE_WRITE (OLAT_of i) [new]] ∧
  (∀ k, 0 ≤ k →
        Z.testbit new k
        = if decide (k = pinIdx_value i mod 8) then b else Z.testbit old k) ∧
  (∀ a, a ≠ OLAT_of i → regs (bus d') !! a = regs (bus d) !! a).
Proof.
  destruct d as [[rs st fs] cbs cs]. cbn zeta.
  rewrite sim_writeOLAT. cbn [snd bus regs frames].
  rewrite reg_insert_eq.
  split; [simpl; intuition discriminate |].
  split; [done |]. split; [| intros a Ha; by rewrite lookup_insert_ne].
  intros k Hk. pose proof (pin_bit_range i) as Hm.
  rewrite uint8_testbit by done.
  rewrite getBitmask_pow2. unfold _BV. rewrite Z.shiftl_1_l.
  assert (Hold : Z.testbit (reg rs (OLAT_of i)) k
                 = bool_decide (k < 8) && Z.testbit (reg rs (OLAT_of i)) k).
  { rewrite <- (uint8_reg rs (OLAT_of i)) at 1. by apply uint8_testbit. }
  destruct b.
  - rewrite Z.lor_spec, Z.pow2_bits_eqb by lia.
    destruct (decide (k = pinIdx_value i mod 8)) as [-> | Hne].
    + rewrite Z.eqb_refl, orb_true_r, bool_decide_eq_true_2 by lia. done.
    + rewrite (proj2 (Z.eqb_neq _ _)) by done. rewrite orb_false_r. by rewrite <- Hold.
  - rewrite Z.land_spec, Z.lnot_spec, Z.pow2_bits_eqb by lia.
    destruct (decide (k = pinIdx_value i mod 8)) as [-> | Hne].
    + rewrite Z.eqb_refl. cbn [negb]. by rewrite !andb_false_r.
    + rewrite (proj2 (Z.eqb_neq _ _)) by done. cbn [negb].
      rewrite andb_true_r. by rewrite <- Hold.
Qed.

End Latch.

(* ===================================================================== *)
(** ** Concrete runs *)
(* ===================================================================== *)

(** C1, counterexample.  B0 and B1 are switches and both flags are set: one
    call of [onInterrupt] reads the capture register of port B twice, once
    from each [notify], and reads no capture register pair. *)
Lemma onInterrupt_reads_capture_register_twice :
  let d := power_on (<[INTFB := 3]> (<[INTCAPB := 3]> ∅)) in
  let d' := (onInterrupt (mkPinConfig B0 SWITCH) [mkPinConfig B1 SWITCH] d).2 in
  frames (bus d')
    = [mkFrame OPCODE_READ INTFA [0; 3];
       mkFrame OPCODE_READ INTCAPB [3];
       mkFrame OPCODE_READ INTCAPB [3]] ∧
  capture_reads (frames (bus d')) = 2%nat ∧
  calls d' = [CallNotify B0; CallCallback B0 None;
              CallNotify B1; CallCallback B1 None].
Proof. vm_compute. repeat split. Qed.

(** C2, counterexample.  With no flag set, and with the only flag set that
    of a plain input, [onInterrupt] returns after the flag read alone: no
    capture register has been read. *)
Lemma onInterrupt_returns_without_capture_read :
  let d1 := (onInterrupt (mkPinConfig B0 SWITCH) [] (power_on ∅)).2 in
  let d2 := (onInterrupt (mkPinConfig B0 SWITCH) [mkPinConfig B1 INPUT]
               (power_on (<[INTFB := 2]> ∅))).2 in
  (frames (bus d1) = [mkFrame OPCODE_READ INTFA [0; 0]] ∧
   capture_reads (frames (bus d1)) = 0%nat) ∧
  (frames (bus d2) = [mkFrame OPCODE_READ INTFA [0; 2]] ∧
   capture_reads (frames (bus d2)) = 0%nat ∧
   notified (calls d2) = [B1]).
Proof. vm_compute. repeat split. Qed.

(** C4, the code at a pack with two entries for B0: [checkConfig] does
    nothing, the first entry decides the type of B0, and [init] runs all of
    its eight register transactions. *)
Theorem duplicate_pin_entries_are_accepted :
  let cur := mkPinConfig B0 SWITCH in
  let next := [mkPinConfig B0 OUTPUT] in
  let d := power_on ∅ in
  checkConfig d = (tt, d) ∧
  Pin cur next B0 = SWITCH ∧
  frames (bus (init cur next true d).2)
    = [mkFrame OPCODE_WRITE IOCON [0x62];
       mkFrame OPCODE_WRITE IODIRA [0; 1];
       mkFrame OPCODE_WRITE IPOLA [0; 1];
       mkFrame OPCODE_WRITE GPINTENA [0; 1];
       mkFrame OPCODE_WRITE DEFVALA [0; 0];
       mkFrame OPCODE_WRITE INTCONA [0; 0];
       mkFrame OPCODE_WRITE GPPUA [0; 1];
       mkFrame OPCODE_READ INTCAPA [0; 0]].
Proof. vm_compute. repeat split. Qed.

(** C9, counterexample.  The public members of the OUTPUT specialization:
    the six register bits and [notify]; there is no [write]. *)
Lemma output_pin_has_no_write :
  Pin_public_members OUTPUT
    = ["s_IODIRBit"; "s_IPOLBit"; "s_GPINTENBit"; "s_DEFVALBit";
       "s_INTCONBit"; "s_GPPUBit"; "notify"]%string ∧
  ¬ In "write"%string (Pin_public_members OUTPUT).
Proof. split; [reflexivity | simpl; intuition discriminate]. Qed.

(** Phase B pins on both ports, B2 and A5, on a register file where the
    two capture registers disagree at either bit: INTCAPA holds bit 5 only,
    INTCAPB bit 2 only.  Both reads return true, each from its own port. *)
Lemma phase_B_read_returns_captured_bit_witness :
  let cur := mkPinConfig B1 ROTENC_PHASE_A in
  let next := [mkPinConfig B2 ROTENC_PHASE_B; mkPinConfig A5 ROTENC_PHASE_B] in
  let d := power_on (<[INTCAPA := 0x20]> (<[INTCAPB := 0x04]> ∅)) in
  (∃ read,
     Pin_read cur next B2 = Some read ∧
     (read d).1 = true ∧
     frames (bus (read d).2) = [mkFrame OPCODE_READ INTCAPB [0x04]]) ∧
  (∃ read,
     Pin_read cur next A5 = Some read ∧
     (read d).1 = true ∧
     frames (bus (read d).2) = [mkFrame OPCODE_READ INTCAPA [0x20]]).
Proof.
  cbn zeta. split.
  - destruct (phase_B_read_returns_captured_bit
                (mkPinConfig B1 ROTENC_PHASE_A)
                [mkPinConfig B2 ROTENC_PHASE_B; mkPinConfig A5 ROTENC_PHASE_B]
                B2 (power_on (<[INTCAPA := 0x20]> (<[INTCAPB := 0x04]> ∅)))
                0 0 eq_refl)
      as (read & Hread & Hvalue & Hframes & _).
    exists read. split; [exact Hread |].
    split; [rewrite Hvalue | rewrite Hframes]; reflexivity.
  - destruct (phase_B_read_returns_captured_bit
                (mkPinConfig B1 ROTENC_PHASE_A)
                [mkPinConfig B2 ROTENC_PHASE_B; mkPinConfig A5 ROTENC_PHASE_B]
                A5 (power_on (<[INTCAPA := 0x20]> (<[INTCAPB := 0x04]> ∅)))
                0 0 eq_refl)
      as (read & Hread & Hvalue & Hframes & _).
    exists read. split; [exact Hread |].
    split; [rewrite Hvalue | rewrite Hframes]; reflexivity.
Defined.

(** Registering on the switch B0 leaves the slot of the encoder A1 empty. *)
Lemma registerCallback_replaces_own_slot_only_witness :
  ∃ register,
    registerCallback (mkPinConfig B0 SWITCH) [mkPinConfig A1 ROTENC_PHASE_A] B0
      = Some register ∧
    s_callback (register "pushed"%string (power_on ∅)).2 !! A1 = None.
Proof.
  destruct (registerCallback_replaces_own_slot_only
              (mkPinConfig B0 SWITCH) [mkPinConfig A1 ROTENC_PHASE_A]
              B0 A1 "pushed"%string (power_on ∅))
    as (register & Hreg & _ & Hq & _).
  - discriminate.
  - reflexivity.
  - reflexivity.
  - exists register. split; [exact Hreg |]. rewrite Hq. reflexivity.
Defined.

(* ===================================================================== *)
(** ** Initialization and the live ports on the simulated register file *)
(* ===================================================================== *)

Lemma uint8_idem x : uint8 (uint8 x) = uint8 x.
Proof. apply uint8_small, uint8_range. Qed.

Lemma hi_byte v : 0 ≤ v < 65536 → uint8 (Z.shiftr (uint16 v) 8) = Z.shiftr v 8.
Proof.
  intros Hv. rewrite uint16_small by done. apply uint8_small.
  rewrite Z.shiftr_div_pow2 by lia. change (2 ^ 8) with 256.
  split; [apply Z.div_pos; lia | apply Z.div_lt_upper_bound; lia].
Qed.

Lemma lo_byte v : 0 ≤ v < 65536 → uint8 (uint16 v) = Z.land v 255.
Proof.
  intros Hv. rewrite uint16_small by done.
  change 255 with (Z.ones 8). by rewrite Z.land_ones by lia.
Qed.

Lemma hi_byte_range v : 0 ≤ v < 65536 → 0 ≤ Z.shiftr v 8 < 256.
Proof. intros Hv. rewrite <- hi_byte by done. apply uint8_range. Qed.

Lemma lo_byte_range v : 0 ≤ v < 65536 → 0 ≤ Z.land v 255 < 256.
Proof. intros Hv. rewrite <- lo_byte by done. apply uint8_range. Qed.

Lemma reg_insert_byte rs a v : 0 ≤ v < 256 → reg (<[a := v]> rs) a = v.
Proof. intros Hv. rewrite <- (uint8_small v) at 1 by done. rewrite reg_insert_eq. by apply uint8_small. Qed.

Lemma reg_write_pair rs a v b :
  0 ≤ v < 65536 →
  reg (write_pair a v rs) b
  = if decide (b = a + 1) then Z.land v 255
    else if decide (b = a) then Z.shiftr v 8 else reg rs b.
Proof.
  intros Hv. unfold write_pair.
  destruct (decide (b = a + 1)) as [-> | Hne1].
  - by rewrite reg_insert_byte by by apply lo_byte_range.
  - rewrite reg_insert_ne by done.
    destruct (decide (b = a)) as [-> | Hne2].
    + by rewrite reg_insert_byte by by apply hi_byte_range.
    + by rewrite reg_insert_ne.
Qed.

Lemma lookup_write_pair rs a v b :
  b ≠ a → b ≠ a + 1 → write_pair a v rs !! b = rs !! b.
Proof. intros Ha Hb. unfold write_pair. by rewrite !lookup_insert_ne. Qed.

Section Initialization.

Context {Callback : Type}.
Variable cur : MCP23S17PinConfig.
Variable next : list MCP23S17PinConfig.
Implicit Types (rs : gmap Z Z) (fs : list Frame) (st : Stage)
               (cbs : gmap MCP23S17PinIdx Callback)
               (cs : list (Call Callback)) (d : Driver Chip Callback).

Lemma sim_writeRegisterPair_word a v rs st fs cbs cs :
  0 ≤ a < 256 → Z.even a = true → 0 ≤ v < 65536 →
  writeRegisterPair a v (mkDriver (mkChip rs st fs) cbs cs)
  = (tt, mkDriver
           (mkChip (write_pair a v rs) Deselected
              (fs ++ [mkFrame OPCODE_WRITE a [Z.shiftr v 8; Z.land v 255]]))
           cbs cs).
Proof.
  intros Ha He Hv. rewrite sim_writeRegisterPair by done. cbn [regs frames].
  by rewrite hi_byte, lo_byte.
Qed.

Lemma sim_init (intActiveHigh : bool) rs st fs cbs cs :
  let image := registerImage cur next in
  let pair a v := mkFrame OPCODE_WRITE a [Z.shiftr v 8; Z.land v 255] in
  let valueIOCON := if intActiveHigh then 0x62 else 0x60 in
  let rs' :=
    write_pair GPPUA (image s_GPPUBit)
      (write_pair INTCONA (image s_INTCONBit)
         (write_pair DEFVALA (image s_DEFVALBit)
            (write_pair GPINTENA (image s_GPINTENBit)
               (write_pair IPOLA (image s_IPOLBit)
                  (write_pair IODIRA (image s_IODIRBit)
                     (<[IOCON := valueIOCON]> rs)))))) in
  init cur next intActiveHigh (mkDriver (mkChip rs st fs) cbs cs)
  = (tt, mkDriver
           (mkChip rs' Deselected
              (fs ++ [mkFrame OPCODE_WRITE IOCON [valueIOCON];
                      pair IODIRA (image s_IODIRBit);
                      pair IPOLA (image s_IPOLBit);
                      pair GPINTENA (image s_GPINTENBit);
                      pair DEFVALA (image s_DEFVALBit);
                      pair INTCONA (image s_INTCONBit);
                      pair GPPUA (image s_GPPUBit);
                      mkFrame OPCODE_READ INTCAPA
                        [reg rs INTCAPA; reg rs INTCAPB]]))
           cbs cs).
Proof.
  cbn zeta. unfold init, checkConfig, reArmInterrupt, bind, ret.
  rewrite sim_writeRegister by (unfold IOCON; lia). cbn [regs frames].
  replace (uint8 _) with (if intActiveHigh then 98 else 96)
    by (by destruct intActiveHigh).
  repeat (rewrite sim_writeRegisterPair_word
            by first [apply registerImage_range | done]).
  rewrite sim_readRegisterPair by done. cbn [regs frames].
  change (INTCAPA + 1) with INTCAPB.
  rewrite !reg_write_pair by apply registerImage_range.
  cbn [decide_rel]. rewrite !reg_insert_ne by done.
  by rewrite <- !app_assoc.
Qed.

End Initialization.

Lemma pin_value_split i :
  pinIdx_value i = pinIdx_value i mod 8 + (if t_portA i then 8 else 0).
Proof. by destruct i. Qed.

Lemma pin_value_range i : 0 ≤ pinIdx_value i < 16.
Proof. destruct i; simpl; lia. Qed.

(** The bit of pin [i] in a register pair that holds the 16-bit word [v]. *)
Lemma pin_bit_write_pair rs a v i :
  0 ≤ v < 65536 →
  pin_bit (write_pair a v rs) a (a + 1) i = Z.testbit v (pinIdx_value i).
Proof.
  intros Hv. unfold pin_bit. rewrite reg_write_pair by done.
  pose proof (pin_bit_range i) as Hk.
  rewrite (pin_value_split i) at 2.
  destruct (t_portA i).
  - rewrite decide_False by lia. rewrite decide_True by done.
    by rewrite Z.shiftr_spec by lia.
  - rewrite decide_True by done. rewrite Z.add_0_r.
    change 255 with (Z.ones 8). rewrite Z.land_ones by lia.
    by rewrite Z.mod_pow2_bits_low by lia.
Qed.

Lemma pin_bit_write_pair_ne rs a v regA regB i :
  0 ≤ v < 65536 →
  regA ≠ a → regA ≠ a + 1 → regB ≠ a → regB ≠ a + 1 →
  pin_bit (write_pair a v rs) regA regB i = pin_bit rs regA regB i.
Proof.
  intros Hv HA1 HA2 HB1 HB2. unfold pin_bit. rewrite reg_write_pair by done.
  by destruct (t_portA i); rewrite !decide_False by done.
Qed.

Section InitializationProperties.

Context {Callback : Type}.
Variable cur : MCP23S17PinConfig.
Variable next : list MCP23S17PinConfig.
Implicit Types (d : Driver Chip Callback).

(** X1.  [init] is eight bus transactions, in this order: the control word
    to IOCON, the six register images as pair writes to IODIR, IPOL,
    GPINTEN, DEFVAL, INTCON and GPPU, and the read of the capture pair.  It
    leaves the chip deselected, whatever state it found the chip in, and
    touches neither callback slots nor trace. *)
Theorem init_transactions (intActiveHigh : bool) d :
  let image := registerImage cur next in
  let pair a v := mkFrame OPCODE_WRITE a [Z.shiftr v 8; Z.land v 255] in
  let d' := (init cur next intActiveHigh d).2 in
  frames (bus d')
    = frames (bus d) ++
      [mkFrame OPCODE_WRITE IOCON [if intActiveHigh then 0x62 else 0x60];
       pair IODIRA (image s_IODIRBit);
       pair IPOLA (image s_IPOLBit);
       pair GPINTENA (image s_GPINTENBit);
       pair DEFVALA (image s_DEFVALBit);
       pair INTCONA (image s_INTCONBit);
       pair GPPUA (image s_GPPUBit);
       mkFrame OPCODE_READ INTCAPA
         [reg (regs (bus d)) INTCAPA; reg (regs (bus d)) INTCAPB]] ∧
  stage (bus d') = Deselected ∧
  s_callback d' = s_callback d ∧
  calls d' = calls d.
Proof.
  destruct d as [[rs st fs] cbs cs]. cbn zeta. rewrite sim_init. done.
Qed.

(** X2.  After [init], each pin finds in the six configuration registers
    of its own port, at bit [index mod 8], the table entries of its
    resolved type. *)
Theorem init_configures_every_pin (intActiveHigh : bool) d i :
  let rs' := regs (bus (init cur next intActiveHigh d).2) in
  let t := Pin cur next i in
  pin_bit rs' IODIRA IODIRB i = s_IODIRBit t ∧
  pin_bit rs' IPOLA IPOLB i = s_IPOLBit t ∧
  pin_bit rs' GPINTENA GPINTENB i = s_GPINTENBit t ∧
  pin_bit rs' DEFVALA DEFVALB i = s_DEFVALBit t ∧
  pin_bit rs' INTCONA INTCONB i = s_INTCONBit t ∧
  pin_bit rs' GPPUA GPPUB i = s_GPPUBit t.
Proof.
  destruct d as [[rs st fs] cbs cs]. cbn zeta. rewrite sim_init.
  cbn [snd bus regs].
  assert (Himg : ∀ bit, Z.testbit (registerImage cur next bit) (pinIdx_value i)
                        = bit (Pin cur next i)).
  { intros bit. rewrite <- registerImage_testbit.
    by rewrite uint16_small by apply registerImage_range. }
  repeat split.
  all: repeat (rewrite pin_bit_write_pair_ne
                 by first [apply registerImage_range | done]).
  - change IODIRB with (IODIRA + 1).
    by rewrite pin_bit_write_pair by apply registerImage_range.
  - change IPOLB with (IPOLA + 1).
    by rewrite pin_bit_write_pair by apply registerImage_range.
  - change GPINTENB with (GPINTENA + 1).
    by rewrite pin_bit_write_pair by apply registerImage_range.
  - change DEFVALB with (DEFVALA + 1).
    by rewrite pin_bit_write_pair by apply registerImage_range.
  - change INTCONB with (INTCONA + 1).
    by rewrite pin_bit_write_pair by apply registerImage_range.
  - change GPPUB with (GPPUA + 1).
    by rewrite pin_bit_write_pair by apply registerImage_range.
Qed.

(** X3.  The control word left in IOCON by [init]: SEQOP and MIRROR set,
    INTPOL as the argument says, and BANK, ODR, HAEN and DISSLW clear, so
    the register addresses for [BANK == 0] stay valid. *)
Theorem init_control_word (intActiveHigh : bool) d :
  let iocon := reg (regs (bus (init cur next intActiveHigh d).2)) IOCON in
  Z.testbit iocon SEQOP = true ∧
  Z.testbit iocon MIRROR = true ∧
  Z.testbit iocon INTPOL = intActiveHigh ∧
  Z.testbit iocon BANK = false ∧
  Z.testbit iocon ODR = false ∧
  Z.testbit iocon HAEN = false ∧
  Z.testbit iocon DISSLW = false.
Proof.
  destruct d as [[rs st fs] cbs cs]. cbn zeta. rewrite sim_init.
  cbn [snd bus regs].
  rewrite !reg_write_pair by apply registerImage_range.
  cbn [decide_rel]. rewrite !decide_False by done.
  rewrite reg_insert_byte by (destruct intActiveHigh; lia).
  by destruct intActiveHigh.
Qed.

(** X4.  [init] writes IOCON and the six configuration pairs and nothing
    else: every other register, among them the interrupt flags, the
    captures, the live ports and the output latches, keeps its content. *)
Theorem init_writes_configuration_only (intActiveHigh : bool) d a :
  a ≠ IOCON →
  a ∉ [IODIRA; IODIRB; IPOLA; IPOLB; GPINTENA; GPINTENB;
       DEFVALA; DEFVALB; INTCONA; INTCONB; GPPUA; GPPUB] →
  regs (bus (init cur next intActiveHigh d).2) !! a = regs (bus d) !! a.
Proof.
  intros HIOCON Hpairs. destruct d as [[rs st fs] cbs cs].
  rewrite sim_init. cbn [snd bus regs].
  repeat (apply not_elem_of_cons in Hpairs as [? Hpairs]).
  rewrite !lookup_write_pair by done. by rewrite lookup_insert_ne.
Qed.

End InitializationProperties.

Lemma init_writes_configuration_only_witness :
  regs (bus (init (mkPinConfig B0 SWITCH) [] true
               (power_on (<[OLATA := 0x55]> ∅))).2) !! OLATA = Some 0x55.
Proof.
  rewrite (init_writes_configuration_only (mkPinConfig B0 SWITCH) [] true
             (power_on (<[OLATA := 0x55]> ∅)) OLATA).
  - reflexivity.
  - discriminate.
  - vm_compute. intros H. repeat (apply elem_of_cons in H as [H | H]; [discriminate |]).
    by apply elem_of_nil in H.
Defined.

(* ===================================================================== *)
(** ** Single registers, the live ports and the latches *)
(* ===================================================================== *)

Lemma pair_word_testbit hi lo k :
  0 ≤ lo < 256 → 0 ≤ k →
  Z.testbit (Z.shiftl hi 8 + lo) k
  = if decide (k < 8) then Z.testbit lo k else Z.testbit hi (k - 8).
Proof.
  intros Hlo Hk. rewrite Z.shiftl_mul_pow2 by lia. change (2 ^ 8) with 256.
  destruct (decide (k < 8)) as [Hlt | Hge].
  - rewrite <- (Z.mod_pow2_bits_low (hi * 256 + lo) 8 k) by lia.
    change (2 ^ 8) with 256.
    by rewrite Z.add_comm, Z.mod_add, Z.mod_small by lia.
  - replace k with (k - 8 + 8) at 1 by lia.
    rewrite <- Z.shiftr_spec by lia.
    rewrite Z.shiftr_div_pow2 by lia. change (2 ^ 8) with 256.
    by rewrite Z.add_comm, Z.div_add, Z.div_small, Z.add_0_l by lia.
Qed.

Lemma t_portA_high i : t_portA i = bool_decide (8 ≤ pinIdx_value i).
Proof. by destruct i. Qed.

Section Registers.

Context {Callback : Type}.
Implicit Types (rs : gmap Z Z) (fs : list Frame) (st : Stage)
               (cbs : gmap MCP23S17PinIdx Callback)
               (cs : list (Call Callback)) (d : Driver Chip Callback).

(** X5.  A single register written through [writeRegister] is read back by
    [readRegister] at the same address as the value reduced to eight bits,
    for any address and value (both are truncated to [uint8_t]); the write
    changes no other register. *)
Theorem writeRegister_readRegister (a v : Z) d :
  let d1 := (writeRegister a v d).2 in
  (readRegister a d1).1 = v mod 256 ∧
  ∀ b, b ≠ a mod 256 → regs (bus d1) !! b = regs (bus d) !! b.
Proof.
  destruct d as [[rs st fs] cbs cs]. cbn zeta.
  assert (Hw : writeRegister a v (mkDriver (mkChip rs st fs) cbs cs)
               = writeRegister (uint8 a) v (mkDriver (mkChip rs st fs) cbs cs)).
  { unfold writeRegister. by rewrite uint8_idem. }
  assert (Hr : ∀ d', readRegister a d' = readRegister (uint8 a) d').
  { intros d'. unfold readRegister. by rewrite uint8_idem. }
  rewrite Hw, Hr. rewrite sim_writeRegister by apply uint8_range.
  cbn [snd bus regs]. rewrite sim_readRegister by apply uint8_range.
  cbn [fst regs]. split; [by rewrite reg_insert_eq |].
  intros b Hb. by rewrite lookup_insert_ne.
Qed.

(** X6.  The three port reads agree with each other and with the pin
    accessor: bit [i] of the 16-bit [read] is what [readGPIO] of pin [i]
    returns, [readA] is the high byte of [read] and [readB] the low byte. *)
Theorem read_agrees_with_readGPIO d :
  (∀ i, Z.testbit (read d).1 (pinIdx_value i) = (readGPIO i d).1) ∧
  (readA d).1 = Z.shiftr (read d).1 8 ∧
  (readB d).1 = Z.land (read d).1 255.
Proof.
  destruct d as [[rs st fs] cbs cs]. unfold read, readA, readB.
  rewrite sim_readRegisterPair by done. change (GPIOA + 1) with GPIOB.
  rewrite !sim_readRegister by done. cbn [fst regs].
  pose proof (reg_range rs GPIOA) as HA. pose proof (reg_range rs GPIOB) as HB.
  split; [| split].
  - intros i. unfold readGPIO, bind, ret.
    rewrite sim_readRegister by (destruct (t_portA i); done). cbn [fst regs].
    rewrite land_getBitmask.
    rewrite pair_word_testbit by (done || apply pin_value_range).
    rewrite t_portA_high.
    pose proof (pin_value_range i) as Hi.
    destruct (decide (pinIdx_value i < 8)) as [Hlt | Hge].
    + rewrite bool_decide_eq_false_2 by lia. by rewrite Z.mod_small by lia.
    + rewrite bool_decide_eq_true_2 by lia. f_equal.
      by destruct i.
  - rewrite Z.shiftl_mul_pow2, Z.shiftr_div_pow2 by lia. change (2 ^ 8) with 256.
    by rewrite Z.add_comm, Z.div_add, Z.div_small, Z.add_0_l by lia.
  - change 255 with (Z.ones 8). rewrite Z.land_ones by lia.
    rewrite Z.shiftl_mul_pow2 by lia. change (2 ^ 8) with 256.
    by rewrite Z.add_comm, Z.mod_add, Z.mod_small by lia.
Qed.

(** The latch accessor seen from the sixteen pins. *)
Lemma writeOLAT_pin_bit i (b : bool) rs st fs cbs cs k :
  pin_bit (regs (bus (writeOLAT i b (mkDriver (mkChip rs st fs) cbs cs)).2))
          OLATA OLATB k
  = if decide (k = i) then b else pin_bit rs OLATA OLATB k.
Proof.
  rewrite sim_writeOLAT. cbn [snd bus regs]. unfold pin_bit.
  fold (OLAT_of k).
  destruct (decide (OLAT_of k = OLAT_of i)) as [Heq | Hne].
  - rewrite Heq, reg_insert_eq.
    pose proof (pin_bit_range k) as Hk. pose proof (pin_bit_range i) as Hi.
    rewrite uint8_testbit by lia. rewrite bool_decide_eq_true_2 by lia.
    cbn [andb]. rewrite getBitmask_pow2. unfold _BV. rewrite Z.shiftl_1_l.
    assert (Hsame : k = i ↔ pinIdx_value k mod 8 = pinIdx_value i mod 8).
    { split; [by intros -> |]. revert Heq. unfold OLAT_of.
      by destruct k, i. }
    destruct b.
    + rewrite Z.lor_spec, Z.pow2_bits_eqb by lia.
      destruct (decide (k = i)) as [-> | Hki].
      * by rewrite Z.eqb_refl, orb_true_r.
      * rewrite (proj2 (Z.eqb_neq _ _)) by (intros E; apply Hki, Hsame; done).
        by rewrite orb_false_r.
    + rewrite Z.land_spec, Z.lnot_spec, Z.pow2_bits_eqb by lia.
      destruct (decide (k = i)) as [-> | Hki].
      * rewrite Z.eqb_refl. cbn [negb]. by rewrite andb_false_r.
      * rewrite (proj2 (Z.eqb_neq _ _)) by (intros E; apply Hki, Hsame; done).
        cbn [negb]. by rewrite andb_true_r.
  - rewrite reg_insert_ne by done.
    by rewrite decide_False by (intros ->; done).
Qed.

(** X7.  Latch writes compose pin by pin: after the accessor has run for
    pin [i] with [b] and then for pin [j] with [b'], the latch bit of [j] is
    [b'], that of another pin [i] is [b], and the latch bits of the other
    pins, on either port, are what they were.  Writing the same pin twice
    leaves the last value. *)
Theorem latch_writes_compose i j (b b' : bool) d k :
  let d2 := (writeOLAT j b' (writeOLAT i b d).2).2 in
  pin_bit (regs (bus d2)) OLATA OLATB k
  = if decide (k = j) then b'
    else if decide (k = i) then b
    else pin_bit (regs (bus d)) OLATA OLATB k.
Proof.
  destruct d as [[rs st fs] cbs cs]. cbn zeta.
  destruct (writeOLAT i b (mkDriver (mkChip rs st fs) cbs cs))
    as [[] [[rs1 st1 fs1] cbs1 cs1]] eqn:Hfirst.
  cbn [snd]. rewrite writeOLAT_pin_bit.
  destruct (decide (k = j)); [done |].
  pose proof (writeOLAT_pin_bit i b rs st fs cbs cs k) as Hone.
  rewrite Hfirst in Hone. exact Hone.
Qed.

End Registers.

(* ===================================================================== *)
(** ** More on interrupt dispatch *)
(* ===================================================================== *)

Lemma invoked_app {Callback} (cs1 cs2 : list (Call Callback)) :
  invoked (cs1 ++ cs2) = invoked cs1 ++ invoked cs2.
Proof. apply omap_app. Qed.

Lemma flagged_In INTF i :
  In i (flagged INTF) ↔ Z.testbit INTF (pinIdx_value i) = true.
Proof.
  unfold flagged. rewrite filter_In. split; [by intros [_ H] |].
  intros H. split; [| done]. destruct i; simpl; tauto.
Qed.

Lemma flagged_NoDup INTF : NoDup (flagged INTF).
Proof.
  apply NoDup_ListNoDup, List.NoDup_filter, NoDup_ListNoDup.
  by apply (bool_decide_unpack _).
Qed.

Lemma Pos_popcount_pos q : (0 < Pos_popcount q)%nat.
Proof. induction q; simpl; lia. Qed.

Lemma interrupt_enabled_has_callback t :
  s_GPINTENBit t = true → has_callback t = true.
Proof. by destruct t. Qed.

Section DispatchProperties.

Context {Callback : Type}.
Variable cur : MCP23S17PinConfig.
Variable next : list MCP23S17PinConfig.
Implicit Types (rs : gmap Z Z) (cbs : gmap MCP23S17PinIdx Callback)
               (d : Driver Chip Callback).

Lemma invoked_notify_calls rs cbs i :
  invoked (notify_calls cur next rs cbs i)
  = if has_callback (Pin cur next i) &&
       Z.testbit (reg rs (INTCAP_of i)) (pinIdx_value i mod 8)
    then [(i, cbs !! i)] else [].
Proof. unfold notify_calls. by destruct (_ && _). Qed.

Lemma invoked_of_pin rs cbs l p :
  NoDup l →
  List.filter (fun e => bool_decide (e.1 = p))
              (invoked (concat (map (notify_calls cur next rs cbs) l)))
  = if bool_decide (p ∈ l) &&
       (has_callback (Pin cur next p) &&
        Z.testbit (reg rs (INTCAP_of p)) (pinIdx_value p mod 8))
    then [(p, cbs !! p)] else [].
Proof.
  induction 1 as [| i l Hnotin Hnodup IH]; [done |].
  cbn [map concat]. rewrite invoked_app, List.filter_app, IH, invoked_notify_calls.
  destruct (decide (i = p)) as [-> | Hne].
  - rewrite (bool_decide_eq_true_2 (p ∈ p :: l)) by apply list_elem_of_here.
    rewrite (bool_decide_eq_false_2 (p ∈ l)) by done.
    cbn [andb].
    destruct (has_callback (Pin cur next p) && Z.testbit _ _);
      cbn [List.filter fst]; [| done].
    by rewrite bool_decide_eq_true_2.
  - assert (Hmem : bool_decide (p ∈ i :: l) = bool_decide (p ∈ l)).
    { apply bool_decide_ext. rewrite elem_of_cons.
      split; [intros [Heq | Hin]; [by subst | done] | by right]. }
    rewrite Hmem.
    destruct (has_callback (Pin cur next i) && _); cbn [List.filter fst]; [| done].
    by rewrite bool_decide_eq_false_2.
Qed.

(** X8.  [onInterrupt] only reads: on return every register holds what it
    held, every frame added to the bus is a read, the chip is deselected
    and no callback slot has changed. *)
Theorem onInterrupt_only_reads d :
  let d' := (onInterrupt cur next d).2 in
  regs (bus d') = regs (bus d) ∧
  stage (bus d') = Deselected ∧
  s_callback d' = s_callback d ∧
  ∃ new, frames (bus d') = frames (bus d) ++ new ∧
         Forall (fun f => f_opcode f = OPCODE_READ) new.
Proof.
  cbn zeta. rewrite sim_onInterrupt. cbn [snd bus regs stage frames s_callback].
  do 3 (split; [done |]). eexists. split; [reflexivity |].
  apply Forall_cons. split; [done |].
  rewrite notify_frames_concat. apply Forall_forall.
  intros f Hf. apply list_elem_of_In, in_map_iff in Hf as (i & <- & _). done.
Qed.

(** X9.  A callback registered on a pin is the one its interrupt invokes:
    after [registerCallback] on pin [p], one call of [onInterrupt] invokes
    the slot of [p] exactly once, and with the registered callback, when the
    flag of [p] is set and its captured bit is set; otherwise it does not
    invoke the slot of [p] at all. *)
Theorem registered_callback_is_invoked p (callback : Callback) d :
  has_callback (Pin cur next p) = true →
  let rs := regs (bus d) in
  let INTF := Z.shiftl (reg rs INTFA) 8 + reg rs INTFB in
  ∃ register,
    registerCallback cur next p = Some register ∧
    ∃ new,
      calls (onInterrupt cur next (register callback d).2).2 = calls d ++ new ∧
      List.filter (fun e => bool_decide (e.1 = p)) (invoked new)
      = if Z.testbit INTF (pinIdx_value p) &&
           Z.testbit (reg rs (INTCAP_of p)) (pinIdx_value p mod 8)
        then [(p, Some callback)] else [].
Proof.
  intros Hp. cbn zeta. unfold registerCallback. rewrite Hp.
  eexists. split; [reflexivity |]. destruct d as [[rs st fs] cbs cs].
  cbn [snd bus regs]. rewrite sim_onInterrupt. cbn [snd bus regs s_callback calls].
  eexists. split; [reflexivity |].
  rewrite invoked_of_pin by apply flagged_NoDup.
  rewrite Hp, lookup_insert_eq. cbn [andb].
  assert (Hmem : bool_decide (p ∈ flagged (Z.shiftl (reg rs INTFA) 8 + reg rs INTFB))
                 = Z.testbit (Z.shiftl (reg rs INTFA) 8 + reg rs INTFB) (pinIdx_value p)).
  { destruct (Z.testbit _ (pinIdx_value p)) eqn:Hbit.
    - apply bool_decide_eq_true_2, list_elem_of_In, flagged_In. done.
    - apply bool_decide_eq_false_2. intros Hin%list_elem_of_In%flagged_In. congruence. }
  by rewrite Hmem.
Qed.

(** X10.  When every flag that is set belongs to a pin whose interrupt
    [init] enabled, [onInterrupt] reads the capture register of the port of
    each flagged pin, and as many capture registers as the flag word has
    bits set: with a non-zero flag word at least one, which re-arms the
    interrupt. *)
Theorem enabled_flags_are_all_captured d :
  let rs := regs (bus d) in
  let INTF := Z.shiftl (reg rs INTFA) 8 + reg rs INTFB in
  Forall (fun i => s_GPINTENBit (Pin cur next i) = true) (flagged INTF) →
  ∃ new,
    frames (bus (onInterrupt cur next d).2) = frames (bus d) ++ new ∧
    (∀ i, In i (flagged INTF) →
          In (mkFrame OPCODE_READ (INTCAP_of i) [reg rs (INTCAP_of i)]) new) ∧
    capture_reads new = popcount INTF ∧
    (INTF ≠ 0 → (0 < capture_reads new)%nat).
Proof.
  cbn zeta. intros Henabled.
  set (INTF := Z.shiftl (reg (regs (bus d)) INTFA) 8 + reg (regs (bus d)) INTFB) in *.
  assert (HINTF : 0 ≤ INTF < 65536).
  { pose proof (reg_range (regs (bus d)) INTFA).
    pose proof (reg_range (regs (bus d)) INTFB).
    subst INTF. rewrite Z.shiftl_mul_pow2 by lia. lia. }
  assert (Hall : List.filter (fun i => has_callback (Pin cur next i)) (flagged INTF)
                 = flagged INTF).
  { induction (flagged INTF) as [| i l IH]; [done |].
    apply Forall_cons in Henabled as [Hi Hl]. cbn [List.filter].
    rewrite (interrupt_enabled_has_callback _ Hi). by rewrite IH. }
  rewrite sim_onInterrupt. cbn [snd bus frames]. fold INTF.
  eexists. split; [reflexivity |].
  assert (Hcount : capture_reads
                     (mkFrame OPCODE_READ INTFA
                        [reg (regs (bus d)) INTFA; reg (regs (bus d)) INTFB]
                      :: concat (map (notify_frames cur next (regs (bus d)))
                                     (flagged INTF)))
                   = popcount INTF).
  { change (?x :: ?l) with ([x] ++ l).
    rewrite capture_reads_app, capture_reads_notify_frames, Hall.
    by rewrite flagged_length. }
  split; [| split; [exact Hcount |]].
  - intros i Hi. right. rewrite notify_frames_concat, Hall.
    apply in_map_iff. by exists i.
  - intros Hnz. rewrite Hcount.
    destruct INTF as [| q | q]; [done | | lia].
    apply Pos_popcount_pos.
Qed.

End DispatchProperties.

(** The encoder of the phase A pin B1 turned: flag and captured bit set. *)
Lemma registered_callback_is_invoked_witness :
  ∃ register,
    registerCallback (mkPinConfig B1 ROTENC_PHASE_A)
                     [mkPinConfig B2 ROTENC_PHASE_B] B1 = Some register ∧
    invoked (calls (onInterrupt (mkPinConfig B1 ROTENC_PHASE_A)
                      [mkPinConfig B2 ROTENC_PHASE_B]
                      (register "turned"%string
                         (power_on (<[INTFB := 2]> (<[INTCAPB := 2]> ∅)))).2).2)
    = [(B1, Some "turned"%string)].
Proof.
  destruct (registered_callback_is_invoked
              (mkPinConfig B1 ROTENC_PHASE_A) [mkPinConfig B2 ROTENC_PHASE_B]
              B1 "turned"%string
              (power_on (<[INTFB := 2]> (<[INTCAPB := 2]> ∅))) eq_refl)
    as (register & Hreg & _).
  exists register. split; [exact Hreg |].
  injection Hreg as <-. reflexivity.
Defined.

(** A switch on B0 and an encoder on A1, both flagged. *)
Lemma enabled_flags_are_all_captured_witness :
  ∃ new,
    frames (bus (onInterrupt (mkPinConfig B0 SWITCH)
                   [mkPinConfig A1 ROTENC_PHASE_A]
                   (power_on (<[INTFA := 2]> (<[INTFB := 1]> ∅)))).2)
    = [] ++ new ∧
    capture_reads new = 2%nat.
Proof.
  destruct (enabled_flags_are_all_captured
              (mkPinConfig B0 SWITCH) [mkPinConfig A1 ROTENC_PHASE_A]
              (power_on (<[INTFA := 2]> (<[INTFB := 1]> ∅))))
    as (new & Hframes & _ & Hcount & _).
  - vm_compute. repeat constructor.
  - exists new. split; [exact Hframes |]. rewrite Hcount. reflexivity.
Defined.

(* ===================================================================== *)
(** ** More on the configuration resolver and the register images *)
(* ===================================================================== *)

Lemma find_entry_unique (l : list MCP23S17PinConfig) i c :
  NoDup (map s_pinIdx l) → c ∈ l → s_pinIdx c = i →
  List.find (fun e => bool_decide (s_pinIdx e = i)) l = Some c.
Proof.
  induction l as [| e l IH]; intros Hnodup Hin Hidx; [by apply elem_of_nil in Hin |].
  cbn [map] in Hnodup. apply NoDup_cons in Hnodup as [Hnotin Hnodup].
  cbn [List.find]. apply elem_of_cons in Hin as [-> | Hin].
  - by rewrite bool_decide_eq_true_2.
  - rewrite bool_decide_eq_false_2; [by apply IH |].
    intros He. apply Hnotin. rewrite He, <- Hidx.
    by apply list_elem_of_fmap_2.
Qed.

Lemma find_entry_none (l : list MCP23S17PinConfig) i :
  (∀ c, c ∈ l → s_pinIdx c ≠ i) →
  List.find (fun e => bool_decide (s_pinIdx e = i)) l = None.
Proof.
  induction l as [| e l IH]; intros Hall; [done |].
  cbn [List.find]. rewrite bool_decide_eq_false_2 by (apply Hall; left).
  apply IH. intros c Hc. apply Hall. by right.
Qed.

Lemma find_entry_app (l extra : list MCP23S17PinConfig) i :
  List.find (fun e => bool_decide (s_pinIdx e = i)) (l ++ extra)
  = match List.find (fun e => bool_decide (s_pinIdx e = i)) l with
    | Some c => Some c
    | None => List.find (fun e => bool_decide (s_pinIdx e = i)) extra
    end.
Proof.
  induction l as [| e l IH]; [done |]. cbn [app List.find].
  by destruct (bool_decide (s_pinIdx e = i)).
Qed.

Lemma PinIdxToPinType_find i cur next :
  PinIdxToPinType i cur next
  = from_option s_pinType UNUSED
      (List.find (fun e => bool_decide (s_pinIdx e = i)) (cur :: next)).
Proof.
  revert cur. induction next as [| n rest IH]; intros cur.
  - cbn [PinIdxToPinType List.find].
    destruct (decide (i = s_pinIdx cur)) as [-> | Hne].
    + by rewrite bool_decide_eq_true_2.
    + by rewrite bool_decide_eq_false_2 by done.
  - cbn [PinIdxToPinType]. rewrite IH. cbn [List.find].
    destruct (decide (i = s_pinIdx cur)) as [-> | Hne].
    + by rewrite bool_decide_eq_true_2.
    + by rewrite (bool_decide_eq_false_2 (s_pinIdx cur = i)) by done.
Qed.

(** X11.  The recursive search of the pack returns the type of the first
    entry that names the index, and UNUSED when no entry does; the index of
    the first entry of the pack always resolves to the type of that entry,
    whatever follows. *)
Theorem resolver_first_entry_wins i cur next :
  PinIdxToPinType i cur next
  = from_option s_pinType UNUSED
      (List.find (fun e => bool_decide (s_pinIdx e = i)) (cur :: next)) ∧
  PinIdxToPinType (s_pinIdx cur) cur next = s_pinType cur.
Proof.
  split; [apply PinIdxToPinType_find |].
  rewrite PinIdxToPinType_find. cbn [List.find].
  by rewrite bool_decide_eq_true_2.
Qed.

(** X12.  Entries later in the pack never override: once an index is named
    by an entry, whatever is appended to the pack, a second entry for the
    same index included, leaves its resolved type as it was. *)
Theorem later_entries_never_override i cur next extra :
  Exists (fun c => s_pinIdx c = i) (cur :: next) →
  PinIdxToPinType i cur (next ++ extra) = PinIdxToPinType i cur next.
Proof.
  intros Hex. rewrite !PinIdxToPinType_find.
  change (cur :: next ++ extra) with ((cur :: next) ++ extra).
  rewrite find_entry_app.
  destruct (List.find _ (cur :: next)) as [c |] eqn:Hfind; [done |].
  exfalso. apply Exists_exists in Hex as (c & Hc & Hidx).
  apply list_elem_of_In in Hc.
  pose proof (find_none _ _ Hfind c Hc) as Hno. cbn beta in Hno.
  by rewrite bool_decide_eq_true_2 in Hno.
Qed.

(** X13.  A pack without two entries for one index can be written in any
    order: every permutation of it resolves every index to the same type. *)
Theorem resolver_ignores_order i cur next cur' next' :
  NoDup (map s_pinIdx (cur :: next)) →
  cur :: next ≡ₚ cur' :: next' →
  PinIdxToPinType i cur next = PinIdxToPinType i cur' next'.
Proof.
  intros Hnodup Hperm. rewrite !PinIdxToPinType_find.
  assert (Hnodup' : NoDup (map s_pinIdx (cur' :: next'))).
  { eapply NoDup_Permutation_proper; [| exact Hnodup].
    symmetry. by apply fmap_Permutation. }
  destruct (List.find _ (cur :: next)) as [c |] eqn:Hfind.
  - apply find_some in Hfind as [Hin Hidx].
    apply bool_decide_eq_true_1 in Hidx. apply list_elem_of_In in Hin.
    rewrite (find_entry_unique (cur' :: next') i c); [done | done | | done].
    by rewrite <- Hperm.
  - rewrite find_entry_none; [done |].
    intros c Hc Hidx. rewrite <- Hperm in Hc. apply list_elem_of_In in Hc.
    pose proof (find_none _ _ Hfind c Hc) as Hno. cbn beta in Hno.
    by rewrite bool_decide_eq_true_2 in Hno.
Qed.

Lemma later_entries_never_override_witness :
  PinIdxToPinType B0 (mkPinConfig B0 SWITCH) ([] ++ [mkPinConfig B0 OUTPUT])
  = SWITCH.
Proof.
  rewrite (later_entries_never_override B0 (mkPinConfig B0 SWITCH) []
             [mkPinConfig B0 OUTPUT]).
  - reflexivity.
  - by left.
Defined.

Lemma resolver_ignores_order_witness :
  PinIdxToPinType A3 (mkPinConfig B0 SWITCH) [mkPinConfig A3 INPUT_PU]
  = PinIdxToPinType A3 (mkPinConfig A3 INPUT_PU) [mkPinConfig B0 SWITCH].
Proof.
  apply (resolver_ignores_order A3 (mkPinConfig B0 SWITCH) [mkPinConfig A3 INPUT_PU]
           (mkPinConfig A3 INPUT_PU) [mkPinConfig B0 SWITCH]).
  - by apply (bool_decide_unpack _).
  - apply Permutation_swap.
Defined.

Lemma pin_of_bit n : 0 ≤ n < 16 → ∃ i, pinIdx_value i = n.
Proof.
  intros Hn. exists (nth (Z.to_nat n) all_pins B0).
  replace n with (Z.of_nat (Z.to_nat n)) at 2 by lia.
  assert (Hk : (Z.to_nat n < 16)%nat) by lia.
  revert Hk. generalize (Z.to_nat n) as k. intros k Hk.
  do 16 (destruct k as [| k]; [reflexivity |]). lia.
Qed.

Lemma registerImage_submask cur next (bit1 bit2 : MCP23xxxPinType → bool) :
  (∀ t, bit1 t = true → bit2 t = true) →
  Z.land (registerImage cur next bit1) (registerImage cur next bit2)
  = registerImage cur next bit1.
Proof.
  intros Himp. apply Z.bits_inj'. intros n Hn. rewrite Z.land_spec.
  destruct (decide (n < 16)) as [Hlt | Hge].
  - destruct (pin_of_bit n) as [i <-]; [lia |].
    pose proof (registerImage_testbit cur next bit1 i) as H1.
    pose proof (registerImage_testbit cur next bit2 i) as H2.
    rewrite uint16_small in H1, H2 by apply registerImage_range.
    rewrite H1, H2. destruct (bit1 (Pin cur next i)) eqn:Hb; [| done].
    by rewrite (Himp _ Hb).
  - rewrite (testbit_high (registerImage cur next bit1))
      by (apply registerImage_range || lia).
    done.
Qed.

(** X14.  Whatever the configuration, the images written to DEFVAL and
    INTCON are zero (interrupts are on change, never on compare with a
    default), and the interrupt-enable, polarity and pull-up images are
    sub-masks of the direction image: [init] enables an interrupt, an
    inversion or a pull-up only on a pin it makes an input; an enabled
    interrupt always comes with the pull-up. *)
Theorem register_images_stay_within_inputs cur next :
  let image := registerImage cur next in
  image s_DEFVALBit = 0 ∧
  image s_INTCONBit = 0 ∧
  Z.land (image s_GPINTENBit) (image s_IODIRBit) = image s_GPINTENBit ∧
  Z.land (image s_IPOLBit) (image s_IODIRBit) = image s_IPOLBit ∧
  Z.land (image s_GPPUBit) (image s_IODIRBit) = image s_GPPUBit ∧
  Z.land (image s_GPINTENBit) (image s_GPPUBit) = image s_GPINTENBit.
Proof.
  cbn zeta.
  assert (Hdef : ∀ t, s_DEFVALBit t = false) by (by intros []).
  assert (Hcon : ∀ t, s_INTCONBit t = false) by (by intros []).
  split; [unfold registerImage; by rewrite !Hdef |].
  split; [unfold registerImage; by rewrite !Hcon |].
  repeat split; apply registerImage_submask; by intros [].
Qed.

(* ===================================================================== *)
(** ** Framing on the recording bus *)
(* ===================================================================== *)

Lemma scan_app s l1 l2 :
  scan s (l1 ++ l2) = scan s l1 ≫= (fun s' => scan s' l2).
Proof.
  revert s. induction l1 as [| e l1 IH]; intros s; [done |].
  cbn [app scan]. destruct (scan_step s e); [apply IH | done].
Qed.

Section FramingRules.

Context {Callback : Type}.
Implicit Types (d : Driver Line Callback).

Lemma Framing_ret {A} (a : A) : Framing (Callback := Callback) (ret a).
Proof. intros d. exists []. by rewrite app_nil_r. Qed.

Lemma Framing_bind {A B} (m : M Line Callback A) (f : A → M Line Callback B) :
  Framing m → (∀ a, Framing (f a)) → Framing (bind m f).
Proof.
  intros Hm Hf d. unfold bind.
  destruct (Hm d) as (new1 & Hw1 & Hs1).
  destruct (m d) as [a d1]. cbn [snd] in Hw1.
  destruct (Hf a d1) as (new2 & Hw2 & Hs2).
  exists (new1 ++ new2). split.
  - by rewrite Hw2, Hw1, app_assoc.
  - by rewrite scan_app, Hs1.
Qed.

Lemma Framing_when (c : bool) (m : M Line Callback unit) :
  Framing m → Framing (when c m).
Proof. intros Hm. destruct c; [done | apply Framing_ret]. Qed.

Lemma Framing_record (c : Call Callback) : Framing (record c).
Proof. intros d. exists []. by rewrite app_nil_r. Qed.

Ltac on_line :=
  unfold bind, on_bus, from_bus, ret;
  cbn [bus s_callback calls SPIMaster_put SPIMaster_get SSPin_low SSPin_high
       Line_SPIMaster Line_SSPin];
  unfold line_get, line_put, line_low, line_high; cbn [wire miso].

Ltac one_frame :=
  cbn [fst snd bus wire miso]; rewrite <- !app_assoc;
  eexists; split; [reflexivity | reflexivity].

Lemma Framing_readRegister a : Framing (Callback := Callback) (readRegister a).
Proof.
  intros [[ws ms] cbs cs]. unfold readRegister. on_line.
  destruct ms as [| b rest]; one_frame.
Qed.

Lemma Framing_readRegisterPair a :
  Framing (Callback := Callback) (readRegisterPair a).
Proof.
  intros [[ws ms] cbs cs]. unfold readRegisterPair. on_line.
  destruct ms as [| b [| b' rest]]; cbn [fst snd bus wire miso]; one_frame.
Qed.

Lemma Framing_writeRegister a v :
  Framing (Callback := Callback) (writeRegister a v).
Proof.
  intros [[ws ms] cbs cs]. unfold writeRegister. on_line. one_frame.
Qed.

Lemma Framing_writeRegisterPair a v :
  Framing (Callback := Callback) (writeRegisterPair a v).
Proof.
  intros [[ws ms] cbs cs]. unfold writeRegisterPair. on_line. one_frame.
Qed.

Lemma Framing_readINTCAP i : Framing (Callback := Callback) (readINTCAP i).
Proof.
  apply Framing_bind; [apply Framing_readRegister | intros v; apply Framing_ret].
Qed.

Lemma Framing_invoke_s_callback i :
  Framing (Callback := Callback) (invoke_s_callback i).
Proof. intros d. exists []. by rewrite app_nil_r. Qed.

Lemma Framing_notify cur next i :
  Framing (Callback := Callback) (notify cur next i).
Proof.
  assert (Hfire : Framing (Callback := Callback)
                    (bind (readINTCAP i)
                       (fun c => if c then invoke_s_callback i else ret tt))).
  { apply Framing_bind; [apply Framing_readINTCAP |].
    intros []; [apply Framing_invoke_s_callback | apply Framing_ret]. }
  unfold notify. apply Framing_bind; [apply Framing_record |]. intros _.
  destruct (Pin cur next i);
    first [exact Hfire | exact (Framing_ret tt)].
Qed.

End FramingRules.

(** X15.  Whatever the slave answers, the driver keeps the chip-select
    discipline: [init], [onInterrupt], [reArmInterrupt], the port read, the
    pin accessors and [notify] each add to the wire only complete frames
    (chip select low, opcode 0x40 or 0x41, address, data bytes in the
    direction of the opcode, chip select high), so none of them returns
    with the chip selected or starts a frame inside another. *)
Theorem driver_keeps_framing {Callback : Type} cur next :
  (∀ intActiveHigh, Framing (Callback := Callback) (init cur next intActiveHigh)) ∧
  Framing (Callback := Callback) (onInterrupt cur next) ∧
  Framing (Callback := Callback) reArmInterrupt ∧
  Framing (Callback := Callback) read ∧
  (∀ i, Framing (Callback := Callback) (notify cur next i)) ∧
  (∀ i, Framing (Callback := Callback) (readGPIO i)) ∧
  (∀ i b, Framing (Callback := Callback) (writeOLAT i b)).
Proof.
  assert (Hrearm : Framing (Callback := Callback) reArmInterrupt).
  { apply Framing_bind; [apply Framing_readRegisterPair | intros; apply Framing_ret]. }
  assert (Hdispatch : ∀ INTF i,
            Framing (Callback := Callback) (dispatch cur next INTF i)).
  { intros INTF i. apply Framing_when, Framing_notify. }
  repeat split.
  - intros h. unfold init.
    apply Framing_bind; [apply Framing_ret | intros _; cbn zeta].
    apply Framing_bind; [apply Framing_writeRegister | intros _].
    do 6 (apply Framing_bind; [apply Framing_writeRegisterPair | intros _]).
    exact Hrearm.
  - unfold onInterrupt. apply Framing_bind; [apply Framing_readRegisterPair |].
    intros INTF.
    do 15 (apply Framing_bind; [apply Hdispatch | intros _]).
    apply Hdispatch.
  - exact Hrearm.
  - apply Framing_readRegisterPair.
  - intros i. apply Framing_notify.
  - intros i. apply Framing_bind; [apply Framing_readRegister | intros; apply Framing_ret].
  - intros i b. unfold writeOLAT.
    destruct b; (apply Framing_bind; [apply Framing_readRegister |]);
      intros v; apply Framing_writeRegister.
Qed.

(* ===================================================================== *)
(** ** Shift registers and line counts *)
(* ===================================================================== *)

Lemma putNextByte_line n data (l : Line) :
  putNextByte n data l
  = if bool_decide (1 ≤ n ≤ length data)%nat
    then Some (mkLine (wire l ++ map WirePut (take n data)) (miso l))
    else None.
Proof.
  revert data l. induction n as [| n IH]; intros data l.
  - by rewrite bool_decide_eq_false_2 by lia.
  - destruct n as [| n].
    + destruct data as [| b rest]; cbn [putNextByte length].
      * by rewrite bool_decide_eq_false_2 by lia.
      * rewrite bool_decide_eq_true_2 by lia. reflexivity.
    + destruct data as [| b rest].
      * cbn [putNextByte length]. by rewrite bool_decide_eq_false_2 by lia.
      * change (putNextByte (S (S n)) (b :: rest) l)
          with (putNextByte (S n) rest (SPIMaster_put b l)).
        rewrite IH. cbn [length].
        destruct (decide (1 ≤ S n ≤ length rest)%nat) as [Hok | Hbad].
        -- rewrite !bool_decide_eq_true_2 by lia.
           cbn [SPIMaster_put Line_SPIMaster]. unfold line_put. cbn [wire miso].
           change (take (S (S n)) (b :: rest)) with (b :: take (S n) rest).
           cbn [map]. by rewrite <- app_assoc.
        -- by rewrite !bool_decide_eq_false_2 by lia.
Qed.

(** X16.  Given at least [n] bytes of data, [put] of a shift register of
    [n >= 1] bytes sends, between chip select low and chip select high, the
    first [n] bytes of the data in order and nothing after them; it gets
    nothing from the bus.  [put] of [n] daisy-chained 74HC595 does the
    same. *)
Theorem ShiftRegister_put_sends_first_bytes n data (l : Line) :
  (1 ≤ n ≤ length data)%nat →
  let sent :=
    Some (mkLine (wire l ++ [WireLow] ++ map WirePut (take n data)
                         ++ [WireHigh])
                 (miso l)) in
  ShiftRegister_put n data l = sent ∧ _74HC595_put n data l = sent.
Proof.
  intros Hn. cbn zeta.
  assert (Hput : ShiftRegister_put n data l
                 = Some (mkLine (wire l ++ [WireLow]
                                   ++ map WirePut (take n data)
                                   ++ [WireHigh])
                                (miso l))).
  { unfold ShiftRegister_put. rewrite putNextByte_line.
    rewrite bool_decide_eq_true_2 by done.
    cbn. unfold line_high, line_low. cbn [wire miso].
    by rewrite <- !app_assoc. }
  split; [exact Hput |].
  rewrite <- Hput. reflexivity.
Qed.

(** Three registers in a chain, four bytes at hand. *)
Lemma ShiftRegister_put_sends_first_bytes_witness :
  ShiftRegister_put 3 [0x11; 0x22; 0x33; 0x44] (mkLine [] [])
  = Some (mkLine [WireLow; WirePut 0x11; WirePut 0x22; WirePut 0x33; WireHigh] []).
Proof.
  apply (ShiftRegister_put_sends_first_bytes 3 [0x11; 0x22; 0x33; 0x44]
           (mkLine [] [])).
  simpl. lia.
Defined.

(** X17.  The line count of a decoder on a port of [n] pins is [2 ^ n] for
    up to seven pins; for a port of eight pins the [uint8_t] result wraps
    to 0. *)
Theorem nofLines_wraps_at_eight_pins n :
  0 ≤ n ≤ 8 → nofLines n = if decide (n = 8) then 0 else 2 ^ n.
Proof.
  intros Hn. unfold nofLines.
  assert (Hcase : n = 0 ∨ n = 1 ∨ n = 2 ∨ n = 3 ∨ n = 4 ∨ n = 5 ∨ n = 6 ∨
                  n = 7 ∨ n = 8) by lia.
  repeat (destruct Hcase as [-> | Hcase]; [reflexivity |]). by subst n.
Qed.

Lemma nofLines_wraps_at_eight_pins_witness : nofLines 3 = 8.
Proof. apply (nofLines_wraps_at_eight_pins 3). lia. Defined.

(** X18.  The one-byte [write] and [read] of the EEPROM driver put the
    address on the wire low byte first and high byte second (the comments
    in the code name them the other way round), after the instruction
    byte 2 or 3; [write] then sends the data byte, [read] returns the byte
    the slave answers. *)
Theorem _25LC512_address_low_byte_first address data (l : Line) :
  0 ≤ address < 65536 → 0 ≤ data < 256 →
  let answer := hd 0 (miso l) in
  wire (_25LC512_write address data l)
    = wire l ++ [WireLow; WirePut INSTRUCTION_WRITE;
                 WirePut (Z.land address 255); WirePut (Z.shiftr address 8);
                 WirePut data; WireHigh] ∧
  wire (_25LC512_read address l).2
    = wire l ++ [WireLow; WirePut INSTRUCTION_READ;
                 WirePut (Z.land address 255); WirePut (Z.shiftr address 8);
                 WireGet answer; WireHigh] ∧
  (_25LC512_read address l).1 = answer mod 256.
Proof.
  intros Ha Hd. cbn zeta. unfold _25LC512_write, _25LC512_read.
  cbn [SPIMaster_put SPIMaster_get SSPin_low SSPin_high Line_SPIMaster Line_SSPin].
  unfold line_get, line_put, line_low, line_high. cbn [wire miso].
  rewrite hi_byte, lo_byte by done. rewrite (uint8_small data) by done.
  destruct l as [ws [| b rest]]; cbn [wire miso hd fst snd];
    rewrite <- !app_assoc; done.
Qed.

Lemma _25LC512_address_low_byte_first_witness :
  wire (_25LC512_write 0x1234 0xAB (mkLine [] []))
  = [WireLow; WirePut 2; WirePut 0x34; WirePut 0x12; WirePut 0xAB; WireHigh].
Proof.
  apply (_25LC512_address_low_byte_first 0x1234 0xAB (mkLine [] [])); lia.
Defined.
